(** * moondream_server.py: a verification development

    The program is a single-module HTTP server (FastAPI) in front of a
    pretrained vision-language model.  Its own code is: the start-up
    checks on PYTHONPATH, [process_base64_image], the generator
    [stream_response] and the four request handlers.  Everything else
    (base64, PIL, the tokenizer, the model, the text streamer, the HTTP
    framework) is a library; libraries appear below as explicit
    parameters or as small models of their documented behaviour, each
    marked as such. *)

From Stdlib Require Import String Ascii.
From stdpp Require Import base tactics option list countable strings gmap.

Local Open Scope N_scope.

(** ** Python values *)

(** A Python [str] is a sequence of Unicode code points. *)
Abbreviation pystr := (list N).

(** The code points of an ASCII literal. *)
Definition py (s : string) : pystr :=
  List.map N_of_ascii (list_ascii_of_string s).
Arguments py : simpl never.

(** The result of [await request.json()]: a JSON document as Python
    objects.  A [dict] is a finite map keyed by strings. *)
#[warnings="-register-all"]
Inductive pyval :=
| PNone
| PBool (b : bool)
| PInt (z : Z)
| PFloat (mantissa exponent : Z)
| PStr (s : pystr)
| PList (l : list pyval)
| PDict (d : gmap pystr pyval).

(** ** Exceptions and fallible computations *)

Inductive exn :=
| IndexError
| KeyError (key : pystr)
| TypeError
| AttributeError
| NameError (name : string)
| RuntimeError (msg : pystr)
| LibraryError (name : string).   (* raised inside a library call *)

Inductive res (A : Type) :=
| Ok (a : A)
| Raise (e : exn).
Arguments Ok {A} a.
Arguments Raise {A} e.

Definition res_bind {A B} (m : res A) (k : A → res B) : res B :=
  match m with
  | Ok a => k a
  | Raise e => Raise e
  end.

(** ** [str.split(sep)] for a one-character separator *)

Fixpoint split (sep : N) (s : pystr) : list pystr :=
  match s with
  | [] => [[]]
  | c :: s' =>
      if c =? sep then [] :: split sep s'
      else match split sep s' with
           | h :: t => (c :: h) :: t
           | [] => [[c]]
           end
  end.

(** [l[i]] on a list. *)
Definition list_getitem {A} (l : list A) (i : nat) : res A :=
  match l !! i with
  | Some x => Ok x
  | None => Raise IndexError
  end.

(** [obj[key]] with a string key, as the handlers use it on the request
    body. *)
Definition getitem (obj : pyval) (key : pystr) : res pyval :=
  match obj with
  | PDict d =>
      match d !! key with
      | Some v => Ok v
      | None => Raise (KeyError key)
      end
  | _ => Raise TypeError
  end.

(** ** [json.dumps] on the one shape the server serialises

    [json.dumps({"chunk": text})] with the default options:
    [ensure_ascii=True], separators [", "] and [": "].  String escaping is
    [json.encoder.py_encode_basestring_ascii]. *)

Definition hex_digit (d : N) : N := if d <? 10 then 48 + d else 87 + d.

(** ['{0:04x}'.format(n)], used for [n < 0x10000] only. *)
Definition hex4 (n : N) : pystr :=
  [hex_digit (N.land (N.shiftr n 12) 15); hex_digit (N.land (N.shiftr n 8) 15);
   hex_digit (N.land (N.shiftr n 4) 15); hex_digit (N.land n 15)].

(** The replacement of one character matched by [ESCAPE_ASCII]: the
    backslash, the double quote, and every character outside the range
    from the space to the tilde.  Other characters stay as they are. *)
Definition escape_char (c : N) : pystr :=
  if c =? 92 then [92; 92]
  else if c =? 34 then [92; 34]
  else if (32 <=? c) && (c <=? 126) then [c]
  else if c =? 8 then [92; 98]
  else if c =? 12 then [92; 102]
  else if c =? 10 then [92; 110]
  else if c =? 13 then [92; 114]
  else if c =? 9 then [92; 116]
  else if c <? 65536 then [92; 117] ++ hex4 c
  else
    let n := c - 65536 in
    let s1 := N.lor 55296 (N.land (N.shiftr n 10) 1023) in
    let s2 := N.lor 56320 (N.land n 1023) in
    [92; 117] ++ hex4 s1 ++ [92; 117] ++ hex4 s2.

Definition encode_basestring_ascii (s : pystr) : pystr :=
  [34] ++ concat (List.map escape_char s) ++ [34].

Definition json_dumps_chunk (text : pystr) : pystr :=
  py "{" ++ encode_basestring_ascii (py "chunk") ++ py ": "
         ++ encode_basestring_ascii text ++ py "}".

(** ** Reading a streamed line back

    The consumer's side of the framing: a reader for JSON string
    literals that follows [json.decoder.py_scanstring] (strict mode), and
    on top of it a reader for a JSON text that is an object with exactly
    one member whose value is a string. *)

Definition hex_value (c : N) : option N :=
  if (48 <=? c) && (c <=? 57) then Some (c - 48)
  else if (97 <=? c) && (c <=? 102) then Some (c - 87)
  else if (65 <=? c) && (c <=? 70) then Some (c - 55)
  else None.

Definition hex4_value (a b c d : N) : option N :=
  match hex_value a, hex_value b, hex_value c, hex_value d with
  | Some a, Some b, Some c, Some d => Some (a * 4096 + b * 256 + c * 16 + d)
  | _, _, _, _ => None
  end.

Definition is_high_surrogate (u : N) : bool := (55296 <=? u) && (u <=? 56319).
Definition is_low_surrogate (u : N) : bool := (56320 <=? u) && (u <=? 57343).

(** A Unicode scalar value: a code point that is not a surrogate. *)
Definition is_scalar (c : N) : bool :=
  (c <? 1114112) && negb ((55296 <=? c) && (c <=? 57343)).

Definition join_surrogates (hi lo : N) : N :=
  65536 + N.lor (N.shiftl (hi - 55296) 10) (lo - 56320).

(** The character a one-letter escape stands for. *)
Definition simple_escape (e : N) : option N :=
  if e =? 34 then Some 34
  else if e =? 92 then Some 92
  else if e =? 47 then Some 47
  else if e =? 98 then Some 8
  else if e =? 102 then Some 12
  else if e =? 110 then Some 10
  else if e =? 114 then Some 13
  else if e =? 116 then Some 9
  else None.

Definition cons_to (c : N) (r : option (pystr * pystr)) : option (pystr * pystr) :=
  match r with
  | Some (v, rest) => Some (c :: v, rest)
  | None => None
  end.

(** [scanstring s] reads a string literal whose opening quote has been
    consumed: the decoded string and the input after the closing quote. *)
Fixpoint scanstring (s : pystr) : option (pystr * pystr) :=
  match s with
  | [] => None
  | c :: s1 =>
      if c =? 34 then Some ([], s1)
      else if c =? 92 then
        match s1 with
        | [] => None
        | e :: s2 =>
            if e =? 117 then
              match s2 with
              | a :: b :: c' :: d :: s3 =>
                  match hex4_value a b c' d with
                  | None => None
                  | Some u =>
                      if is_high_surrogate u then
                        match s3 with
                        | x :: s3a =>
                            if x =? 92 then
                              match s3a with
                              | y :: s3b =>
                                  if y =? 117 then
                                    match s3b with
                                    | a2 :: b2 :: c2 :: d2 :: s4 =>
                                        match hex4_value a2 b2 c2 d2 with
                                        | None => None
                                        | Some u2 =>
                                            if is_low_surrogate u2
                                            then cons_to (join_surrogates u u2) (scanstring s4)
                                            else cons_to u (scanstring s3)
                                        end
                                    | _ => None
                                    end
                                  else cons_to u (scanstring s3)
                              | [] => cons_to u (scanstring s3)
                              end
                            else cons_to u (scanstring s3)
                        | [] => cons_to u (scanstring s3)
                        end
                      else cons_to u (scanstring s3)
                  end
              | _ => None
              end
            else
              match simple_escape e with
              | Some x => cons_to x (scanstring s2)
              | None => None
              end
        end
      else if c <? 32 then None
      else cons_to c (scanstring s1)
  end.

Definition is_ws (c : N) : bool :=
  (c =? 32) || (c =? 9) || (c =? 10) || (c =? 13).

Fixpoint skip_ws (s : pystr) : pystr :=
  match s with
  | c :: s' => if is_ws c then skip_ws s' else s
  | [] => []
  end.

(** Optional whitespace, then the character [c]. *)
Definition expect (c : N) (s : pystr) : option pystr :=
  match skip_ws s with
  | x :: s' => if x =? c then Some s' else None
  | [] => None
  end.

(** A JSON text of the form [{ "key" : "value" }], with whitespace
    allowed around the six tokens and nothing else after the closing
    brace: the key and the value. *)
Definition loads_single_member (s : pystr) : option (pystr * pystr) :=
  s1 ← expect 123 s;
  s2 ← expect 34 s1;
  '(key, s3) ← scanstring s2;
  s4 ← expect 58 s3;
  s5 ← expect 34 s4;
  '(value, s6) ← scanstring s5;
  s7 ← expect 125 s6;
  match skip_ws s7 with
  | [] => Some (key, value)
  | _ :: _ => None
  end.

(** The [chunk] field of one streamed line. *)
Definition chunk_of_line (line : pystr) : option pystr :=
  '(key, value) ← loads_single_member line;
  if decide (key = py "chunk") then Some value else None.

(** The [chunk] fields of a sequence of lines, when every line has one. *)
Definition chunks_of_lines (lines : list pystr) : option (list pystr) :=
  mapM chunk_of_line lines.

(** ** The server *)

(** What one call of [moondream.answer_question] does: the text
    fragments that reach the queue of a streamer handed to the call, in
    order, and how the call ends (its return value, or the exception it
    raises after the last fragment).  The plain routes call it without
    a streamer and use [result]; [stream_response] calls it with one, in
    a thread, and uses [pushed] and whether the call returns or raises.
    How the two calls compare is the library's matter. *)
Record generation := {
  pushed : list pystr;
  result : res pystr
}.

(** The loaded model object, with the two methods the server calls
    (library code, a black box here). *)
Record Moondream {Image Embeds Tokenizer : Type} := {
  encode_image : Image → res Embeds;
  answer_question : Embeds → pyval → Tokenizer → generation
}.
Arguments Moondream : clear implicits.

(** The libraries the module imports. *)
Record Libraries := {
  Image : Type;
  Embeds : Type;
  Tokenizer : Type;
  Device : Type;
  Dtype : Type;
  (* base64.b64decode *)
  b64decode : pystr → res (list N);
  (* Image.open(io.BytesIO(_)) *)
  Image_open : list N → res Image;
  (* moondream.hf.detect_device *)
  detect_device : res (Device * Dtype);
  (* AutoTokenizer.from_pretrained("vikhyatk/moondream2", revision=LATEST_REVISION) *)
  AutoTokenizer_from_pretrained : res Tokenizer;
  (* Moondream.from_pretrained(path, torch_dtype=_, local_files_only=True).to(device=_) *)
  Moondream_from_pretrained :
    pystr → Dtype → Device → res (Moondream Image Embeds Tokenizer)
}.

(** What the module body asks of the operating system. *)
Record OS := {
  os_name : pystr;
  os_environ : gmap pystr pystr;
  os_path_join : pystr → pystr → pystr;
  os_path_exists : pystr → bool
}.

(** A request as the handlers see it: all they do with it is
    [await request.json()], which gives the parsed body or raises. *)
Record Request := { request_json : res pyval }.

(** The items of the streamer's queue: a text fragment, or the stop
    signal that [TextIteratorStreamer.end] puts last. *)
Inductive item :=
| Text (t : pystr)
| StopSignal.

(** The thread started by [stream_response]. *)
Inductive thread :=
| Running (todo : list pystr) (ending : res pystr)
| Returned
| Died (e : exn).

Inductive gen_status :=
| Created          (* generator object made, body not entered *)
| Looping          (* inside [for text in streamer] *)
| Exhausted        (* the loop ended, the generator returned *)
| Failed (e : exn) (* the generator raised *).

Section Server.

Context (L : Libraries).

(** An object a module-level name can be bound to. *)
Inductive object :=
| OVal (v : pyval)
| ODevice (d : Device L)
| ODtype (t : Dtype L)
| OTokenizer (t : Tokenizer L)
| OModel (m : Moondream (Image L) (Embeds L) (Tokenizer L)).

(** Code running in the module: it reads and binds module-level names
    (the state is the module namespace), and it may raise. *)
Definition M (A : Type) : Type :=
  gmap string object → gmap string object * res A.

#[export] Instance M_ret : MRet M := λ A a g, (g, Ok a).
#[export] Instance M_bind : MBind M := λ A B k m g,
  match m g with
  | (g', Ok a) => k a g'
  | (g', Raise e) => (g', Raise e)
  end.

Definition lift {A} (r : res A) : M A := λ g, (g, r).
Definition raise {A} (e : exn) : M A := λ g, (g, Raise e).
Definition load_name (x : string) : M object := λ g,
  match g !! x with
  | Some o => (g, Ok o)
  | None => (g, Raise (NameError x))
  end.
Definition store_name (x : string) (o : object) : M unit := λ g,
  (<[x := o]> g, Ok tt).

(** The two module-level objects the handlers use.  The module body
    binds these names once, to the library's objects; a name bound to
    another kind of object would fail at the first use. *)
Definition load_model : M (Moondream (Image L) (Embeds L) (Tokenizer L)) :=
  o ← load_name "moondream";
  match o with
  | OModel m => mret m
  | _ => raise AttributeError
  end.
Definition load_tokenizer : M (Tokenizer L) :=
  o ← load_name "tokenizer";
  match o with
  | OTokenizer t => mret t
  | _ => raise TypeError
  end.

(** *** The module body (lines 22-56) *)

(** [for i, path in enumerate(paths): print(...)]: the loop variables
    are module-level names.  Output to stdout is not represented. *)
Fixpoint print_paths (i : nat) (l : list pystr) : M unit :=
  match l with
  | [] => mret tt
  | path :: l' =>
      _ ← store_name "i" (OVal (PInt (Z.of_nat i)));
      _ ← store_name "path" (OVal (PStr path));
      print_paths (S i) l'
  end.

Definition weights_file : pystr := py "moondream-2b-int8.mf.gz".

Context (os : OS).

(** [';' if os.name == 'nt' else ':'] *)
Definition path_separator : N :=
  if decide (os_name os = py "nt") then 59 else 58.

(** Lines 22-42: up to and including the check of the weight file;
    the value is [model_path]. *)
Definition startup_checks : M pystr :=
  dd ← lift (detect_device L);
  _ ← store_name "device" (ODevice dd.1);
  _ ← store_name "dtype" (ODtype dd.2);
  let pythonpath := default [] (os_environ os !! py "PYTHONPATH") in
  _ ← store_name "pythonpath" (OVal (PStr pythonpath));
  if decide (pythonpath = []) then
    raise (RuntimeError (py "PYTHONPATH environment variable not set"))
  else
    _ ← store_name "path_sep" (OVal (PStr [path_separator]));
    let paths := split path_separator pythonpath in
    _ ← store_name "paths" (OVal (PList (PStr <$> paths)));
    if decide (length paths < 2)%nat then
      raise (RuntimeError
        (py "PYTHONPATH should contain both current directory and models directory. Got: "
         ++ pythonpath))
    else
      _ ← print_paths 0 paths;
      entry ← lift (list_getitem paths 1);
      let model_path := os_path_join os entry weights_file in
      _ ← store_name "model_path" (OVal (PStr model_path));
      if os_path_exists os model_path then mret model_path
      else raise (RuntimeError (py "Model file not found at " ++ model_path)).

(** Lines 44-56: the [try] block re-raises what the loaders raise;
    [moondream.eval()] switches the model object to inference mode and
    binds nothing. *)
Definition load_weights (model_path : pystr) : M unit :=
  tok ← lift (AutoTokenizer_from_pretrained L);
  _ ← store_name "tokenizer" (OTokenizer tok);
  dt ← load_name "dtype";
  dv ← load_name "device";
  match dt, dv with
  | ODtype dt, ODevice dv =>
      md ← lift (Moondream_from_pretrained L model_path dt dv);
      store_name "moondream" (OModel md)
  | _, _ => raise TypeError
  end.

Definition module_body : M unit :=
  model_path ← startup_checks;
  load_weights model_path.

(** *** process_base64_image (lines 58-62) *)

Definition str_split (v : pyval) (sep : N) : res (list pystr) :=
  match v with
  | PStr s => Ok (split sep s)
  | _ => Raise AttributeError
  end.

(** [image_url.split(',')[1]] *)
Definition base64_data_of (image_url : pyval) : res pystr :=
  res_bind (str_split image_url 44) (λ parts, list_getitem parts 1).

Definition process_base64_image (image_url : pyval) : res (Image L) :=
  res_bind (base64_data_of image_url) (λ base64_data,
  res_bind (b64decode L base64_data) (λ image_data,
  Image_open L image_data)).

(** *** stream_response (lines 64-79) *)

(** The generator object that a call [stream_response(image_embeds,
    question)] returns: no line of the body has run yet. *)
Record generator := {
  image_embeds : Embeds L;
  question : pyval
}.

(** A generator being consumed, together with the thread and the
    streamer's queue it set up. *)
Record stream := {
  status : gen_status;
  worker : option thread;
  text_queue : list item;
  yielded : list pystr
}.

Definition new_stream : stream :=
  {| status := Created; worker := None; text_queue := []; yielded := [] |}.

(** Lines 65-75: the streamer is built on [tokenizer], the thread's
    target is [moondream.answer_question] with the streamer among its
    arguments. *)
Definition the_generation (gen : generator) : M generation :=
  _ ← load_tokenizer;
  md ← load_model;
  tok ← load_tokenizer;
  mret (answer_question md (image_embeds gen) (question gen) tok).

(** Line 79 *)
Definition chunk_line (text : pystr) : pystr :=
  json_dumps_chunk text ++ py (String "010" EmptyString).

(** One step of the generator's consumer or of the worker thread, in
    the module namespace [g].  The worker puts its fragments on the
    queue one by one; a generation that completes puts the stop signal
    last ([streamer.end()]), one that raises puts nothing more.  The
    loop [for text in streamer] takes the head of the queue when there
    is one, and waits otherwise. *)
Inductive step (g : gmap string object) (gen : generator) : stream → stream → Prop :=
| step_enter run q y :
    (the_generation gen g).2 = Ok run →
    step g gen
      {| status := Created; worker := None; text_queue := q; yielded := y |}
      {| status := Looping; worker := Some (Running (pushed run) (result run));
         text_queue := q; yielded := y |}
| step_enter_raise e q y :
    (the_generation gen g).2 = Raise e →
    step g gen
      {| status := Created; worker := None; text_queue := q; yielded := y |}
      {| status := Failed e; worker := None; text_queue := q; yielded := y |}
| step_put st t todo ending q y :
    step g gen
      {| status := st; worker := Some (Running (t :: todo) ending);
         text_queue := q; yielded := y |}
      {| status := st; worker := Some (Running todo ending);
         text_queue := q ++ [Text t]; yielded := y |}
| step_end st a q y :
    step g gen
      {| status := st; worker := Some (Running [] (Ok a));
         text_queue := q; yielded := y |}
      {| status := st; worker := Some Returned;
         text_queue := q ++ [StopSignal]; yielded := y |}
| step_die st e q y :
    step g gen
      {| status := st; worker := Some (Running [] (Raise e));
         text_queue := q; yielded := y |}
      {| status := st; worker := Some (Died e);
         text_queue := q; yielded := y |}
| step_yield w t q y :
    step g gen
      {| status := Looping; worker := w; text_queue := Text t :: q; yielded := y |}
      {| status := Looping; worker := w; text_queue := q;
         yielded := y ++ [chunk_line t] |}
| step_stop w q y :
    step g gen
      {| status := Looping; worker := w; text_queue := StopSignal :: q; yielded := y |}
      {| status := Exhausted; worker := w; text_queue := q; yielded := y |}.

(** *** The four routes (lines 81-135) *)

Inductive response :=
| JSONResponse (content : pyval)
| StreamingResponse (content : generator) (media_type : pystr).

Definition caption_prompt : pystr :=
  py "Generate a detailed caption for this image.".

Definition query_stream (request : Request) : M response :=
  data ← lift (request_json request);
  image_url ← lift (getitem data (py "image_url"));
  image ← lift (process_base64_image image_url);
  question ← lift (getitem data (py "question"));
  md ← load_model;
  image_embeds ← lift (encode_image md image);
  mret (StreamingResponse
          {| image_embeds := image_embeds; question := question |}
          (py "application/x-ndjson")).

Definition caption_stream (request : Request) : M response :=
  data ← lift (request_json request);
  image_url ← lift (getitem data (py "image_url"));
  image ← lift (process_base64_image image_url);
  md ← load_model;
  image_embeds ← lift (encode_image md image);
  mret (StreamingResponse
          {| image_embeds := image_embeds; question := PStr caption_prompt |}
          (py "application/x-ndjson")).

Definition query (request : Request) : M response :=
  data ← lift (request_json request);
  image_url ← lift (getitem data (py "image_url"));
  image ← lift (process_base64_image image_url);
  question ← lift (getitem data (py "question"));
  md ← load_model;
  image_embeds ← lift (encode_image md image);
  md ← load_model;
  tok ← load_tokenizer;
  answer ← lift (result (answer_question md image_embeds question tok));
  mret (JSONResponse (PDict {[ py "answer" := PStr answer ]})).

Definition caption (request : Request) : M response :=
  data ← lift (request_json request);
  image_url ← lift (getitem data (py "image_url"));
  image ← lift (process_base64_image image_url);
  md ← load_model;
  image_embeds ← lift (encode_image md image);
  md ← load_model;
  tok ← load_tokenizer;
  caption ← lift (result (answer_question md image_embeds (PStr caption_prompt) tok));
  mret (JSONResponse (PDict {[ py "caption" := PStr caption ]})).

Inductive route := Query | Caption | QueryStream | CaptionStream.

Definition handler (r : route) : Request → M response :=
  match r with
  | Query => query
  | Caption => caption
  | QueryStream => query_stream
  | CaptionStream => caption_stream
  end.

(** The framework's answer to what a route handler did: the value it
    returned is sent with status 200; an exception that escapes the
    handler is answered with 500 Internal Server Error (no handler
    raises the framework's own [HTTPException]). *)
Definition http_status (outcome : res response) : N :=
  match outcome with
  | Ok _ => 200
  | Raise _ => 500
  end.

End Server.

Arguments OVal {L} v.
Arguments ODevice {L} d.
Arguments ODtype {L} t.
Arguments OTokenizer {L} t.
Arguments OModel {L} m.
Arguments JSONResponse {L} content.
Arguments StreamingResponse {L} content media_type.
Arguments image_embeds {L} g.
Arguments question {L} g.

(** ** Reference notions used in the statements *)

(** The text after the first occurrence of [sep], if there is one. *)
Fixpoint after_first (sep : N) (s : pystr) : option pystr :=
  match s with
  | [] => None
  | c :: s' => if c =? sep then Some s' else after_first sep s'
  end.

(** The text before the first occurrence of [sep] (all of it when there
    is none). *)
Fixpoint up_to (sep : N) (s : pystr) : pystr :=
  match s with
  | [] => []
  | c :: s' => if c =? sep then [] else c :: up_to sep s'
  end.

Definition client_error (status : N) : Prop := 400 ≤ status ∧ status < 500.

(** The fragments the generation behind a generator produces, in the
    order it produces them (none when the generator cannot start). *)
Definition produced (L : Libraries) (g : gmap string (object L))
    (gen : generator L) : list pystr :=
  match (the_generation L gen g).2 with
  | Ok run => pushed run
  | Raise _ => []
  end.

(** A stream that can make no step: the generator has returned or
    raised, or it waits for a queue that nobody will fill. *)
Definition stuck (L : Libraries) (g : gmap string (object L))
    (gen : generator L) (s : stream) : Prop :=
  ∀ s', ¬ step L g gen s s'.

(** The shapes a started stream goes through, for a generation [run]:
    [delivered] are the fragments already yielded, [ts] those waiting in
    the queue. *)
Inductive started (run : generation) : stream → Prop :=
| started_running delivered ts todo :
    delivered ++ ts ++ todo = pushed run →
    started run {| status := Looping;
                   worker := Some (Running todo (result run));
                   text_queue := Text <$> ts;
                   yielded := chunk_line <$> delivered |}
| started_returned delivered ts a :
    result run = Ok a →
    delivered ++ ts = pushed run →
    started run {| status := Looping;
                   worker := Some Returned;
                   text_queue := (Text <$> ts) ++ [StopSignal];
                   yielded := chunk_line <$> delivered |}
| started_died delivered ts e :
    result run = Raise e →
    delivered ++ ts = pushed run →
    started run {| status := Looping;
                   worker := Some (Died e);
                   text_queue := Text <$> ts;
                   yielded := chunk_line <$> delivered |}
| started_exhausted a :
    result run = Ok a →
    started run {| status := Exhausted;
                   worker := Some Returned;
                   text_queue := [];
                   yielded := chunk_line <$> pushed run |}.

(** A bound on the number of steps a stream can still make. *)
Definition steps_left (L : Libraries) (g : gmap string (object L))
    (gen : generator L) (s : stream) : nat :=
  (match status s with
   | Created => 2 * length (produced L g gen) + 3
   | _ => 0
   end
   + match worker s with
     | Some (Running todo _) => 2 * length todo + 2
     | _ => 0
     end
   + length (text_queue s))%nat.

(** [sep.join(fields)] for a one-character separator. *)
Fixpoint join (sep : N) (fields : list pystr) : pystr :=
  match fields with
  | [] => []
  | f :: rest =>
      match rest with
      | [] => f
      | _ :: _ => f ++ sep :: join sep rest
      end
  end.

(** The text fragments waiting in the streamer's queue. *)
Definition queued_texts (q : list item) : list pystr :=
  omap (λ i, match i with Text t => Some t | StopSignal => None end) q.

(** The fragments the worker thread has still to put on the queue. *)
Definition not_yet_pushed (w : option thread) : list pystr :=
  match w with
  | Some (Running todo _) => todo
  | _ => []
  end.

(** The characters from the space to the tilde. *)
Definition printable_ascii (c : N) : Prop := 32 ≤ c ∧ c ≤ 126.

(** ** Small concrete libraries, for closed instances of the theorems *)

Module Demo.

(** A model whose return value is what it streamed. *)
Definition plain_model : Moondream (list N) (list N) unit := {|
  encode_image := λ image, Ok image;
  answer_question := λ _ _ _,
    {| pushed := [py "A"; py " cat"; py "."]; result := Ok (py "A cat.") |}
|}.

(** A model whose generation raises after two fragments. *)
Definition failing_model : Moondream (list N) (list N) unit := {|
  encode_image := λ image, Ok image;
  answer_question := λ _ _ _,
    {| pushed := [py "A"; py " cat"];
       result := Raise (LibraryError "torch.OutOfMemoryError") |}
|}.

Definition is_base64_char (c : N) : bool :=
  ((65 <=? c) && (c <=? 90)) || ((97 <=? c) && (c <=? 122))
  || ((48 <=? c) && (c <=? 57)) || (c =? 43) || (c =? 47) || (c =? 61).

(** Stand-ins for the libraries: a decoder that accepts strict base64
    text and an image reader that accepts any bytes but none.  The real
    decoders behave otherwise on such inputs. *)
Definition lib (model : Moondream (list N) (list N) unit) : Libraries := {|
  Image := list N;
  Embeds := list N;
  Tokenizer := unit;
  Device := unit;
  Dtype := unit;
  b64decode := λ s,
    if forallb is_base64_char s && (length s mod 4 =? 0)%nat then Ok s
    else Raise (LibraryError "binascii.Error");
  Image_open := λ bytes,
    match bytes with
    | [] => Raise (LibraryError "PIL.UnidentifiedImageError")
    | _ :: _ => Ok bytes
    end;
  detect_device := Ok (tt, tt);
  AutoTokenizer_from_pretrained := Ok tt;
  Moondream_from_pretrained := λ _ _ _, Ok model
|}.

(** No PYTHONPATH in the environment. *)
Definition bare : OS := {|
  os_name := py "posix";
  os_environ := ∅;
  os_path_join := λ a b, a ++ py "/" ++ b;
  os_path_exists := λ _, true
|}.

Definition posix : OS := {|
  os_name := py "posix";
  os_environ := {[ py "PYTHONPATH" := py "/srv/app:/srv/models" ]};
  os_path_join := λ a b, a ++ py "/" ++ b;
  os_path_exists := λ p, bool_decide (p = py "/srv/models/moondream-2b-int8.mf.gz")
|}.

(** The module namespace after the module body ran. *)
Definition namespace (model : Moondream (list N) (list N) unit)
  : gmap string (object (lib model)) :=
  (module_body (lib model) posix ∅).1.

Definition body (fields : list (pystr * pyval)) : Request :=
  {| request_json := Ok (PDict (list_to_map fields)) |}.

End Demo.

(** Further environments and requests for closed instances. *)
Module Samples.

(** PYTHONPATH with one entry only. *)
Definition one_entry : OS := {|
  os_name := py "posix";
  os_environ := {[ py "PYTHONPATH" := py "/srv/models" ]};
  os_path_join := λ a b, a ++ py "/" ++ b;
  os_path_exists := λ _, true
|}.

(** PYTHONPATH set to the empty string. *)
Definition empty_path : OS := {|
  os_name := py "posix";
  os_environ := {[ py "PYTHONPATH" := [] ]};
  os_path_join := λ a b, a ++ py "/" ++ b;
  os_path_exists := λ _, true
|}.


Definition image_url : pyval := PStr (py "data:image/png;base64,QUJD").


End Samples.

(** * Properties *)

(** ** Splitting at a separator *)

Lemma split_cons_nonempty sep s : split sep s ≠ [].
Proof.
  destruct s as [|c s]; simpl; [done|].
  destruct (c =? sep); [done|]. by destruct (split sep s).
Qed.

Lemma split_head_tail sep s :
  split sep s = up_to sep s :: from_option (split sep) [] (after_first sep s).
Proof.
  induction s as [|c s IH]; simpl; [done|].
  destruct (c =? sep); [done|]. by rewrite IH.
Qed.

Lemma after_first_None sep s : after_first sep s = None ↔ sep ∉ s.
Proof.
  induction s as [|c s IH]; simpl.
  - split; [intros _; apply not_elem_of_nil | done].
  - destruct (N.eqb_spec c sep) as [->|Hne].
    + split; [done | intros []; left].
    + rewrite IH, not_elem_of_cons. split; [auto | by intros []].
Qed.

Lemma after_first_app sep p t :
  sep ∉ p → after_first sep (p ++ sep :: t) = Some t.
Proof.
  induction p as [|c p IH]; simpl; intros Hp.
  - by rewrite N.eqb_refl.
  - apply not_elem_of_cons in Hp as [Hc Hp].
    destruct (N.eqb_spec c sep); [congruence | auto].
Qed.


Lemma up_to_all sep m : sep ∉ m → up_to sep m = m.
Proof.
  induction m as [|c m IH]; simpl; intros Hm; [done|].
  apply not_elem_of_cons in Hm as [Hc Hm].
  destruct (N.eqb_spec c sep); [congruence | by rewrite IH].
Qed.

Lemma split_length_ge_2 sep s :
  (2 ≤ length (split sep s))%nat ↔ sep ∈ s.
Proof.
  rewrite split_head_tail. destruct (after_first sep s) as [t|] eqn:E; simpl.
  - pose proof (split_cons_nonempty sep t).
    destruct (split sep t); [done|]. simpl. split; [|lia]. intros _.
    destruct (decide (sep ∈ s)) as [|Hn]; [done|].
    apply after_first_None in Hn. congruence.
  - apply after_first_None in E. split; [lia | done].
Qed.

Lemma split_second sep s :
  split sep s !! 1%nat = up_to sep <$> after_first sep s.
Proof.
  rewrite split_head_tail. simpl.
  destruct (after_first sep s) as [t|]; simpl; [|done].
  by rewrite split_head_tail.
Qed.

Example split_data_url :
  split 44 (py "data:image/png;base64,QUJD")
  = [py "data:image/png;base64"; py "QUJD"].
Proof. reflexivity. Qed.

Example split_three : split 44 (py "a,b,c") = [py "a"; py "b"; py "c"].
Proof. reflexivity. Qed.

Example split_no_separator : split 44 (py "abc") = [py "abc"].
Proof. reflexivity. Qed.

Example split_empty : split 44 [] = [[]].
Proof. reflexivity. Qed.

(** ** process_base64_image *)

Section Image_payload.

Context (L : Libraries).

Lemma base64_data_of_str s :
  base64_data_of (PStr s) =
    match after_first 44 s with
    | None => Raise IndexError
    | Some t => Ok (up_to 44 t)
    end.
Proof.
  unfold base64_data_of, str_split, res_bind, list_getitem.
  rewrite split_second. by destruct (after_first 44 s).
Qed.

(** C10 (as amended).  On a string without a comma
    [process_base64_image] raises [IndexError].  On a string with a
    comma it decodes the text that lies between the first comma and the
    next one (or the end of the string when there is no second comma):
    what comes before the first comma never reaches the decoder, and
    neither does what comes after a second comma. *)
Theorem process_base64_image_decodes_second_field (s : pystr) :
  process_base64_image L (PStr s) =
    match after_first 44 s with
    | None => Raise IndexError
    | Some t => res_bind (b64decode L (up_to 44 t)) (Image_open L)
    end.
Proof.
  unfold process_base64_image. rewrite base64_data_of_str.
  by destruct (after_first 44 s).
Qed.

Lemma process_base64_image_no_comma (s : pystr) :
  44 ∉ s → process_base64_image L (PStr s) = Raise IndexError.
Proof.
  intros Hs. unfold process_base64_image. rewrite base64_data_of_str.
  apply after_first_None in Hs. by rewrite Hs.
Qed.

Lemma process_base64_image_prefix_ignored (p q t : pystr) :
  44 ∉ p → 44 ∉ q →
  process_base64_image L (PStr (p ++ 44 :: t))
  = process_base64_image L (PStr (q ++ 44 :: t)).
Proof.
  intros Hp Hq. unfold process_base64_image.
  by rewrite !base64_data_of_str, !after_first_app.
Qed.

Lemma process_base64_image_not_str (v : pyval) :
  (∀ s, v ≠ PStr s) → process_base64_image L v = Raise AttributeError.
Proof. intros Hv. destruct v; try done. by destruct (Hv s). Qed.

End Image_payload.

(** C10 (as stated) fails: with two commas in the input, the text after
    the first comma is ["b,c"], but only ["b"] is handed to the decoder. *)
Lemma base64_data_is_not_all_after_first_comma :
  after_first 44 (py "a,b,c") = Some (py "b,c")
  ∧ base64_data_of (PStr (py "a,b,c")) = Ok (py "b")
  ∧ base64_data_of (PStr (py "a,b,c")) ≠ Ok (py "b,c")
  ∧ process_base64_image (Demo.lib Demo.plain_model) (PStr (py "x,QUJD,QUJD"))
    ≠ res_bind (b64decode (Demo.lib Demo.plain_model) (py "QUJD,QUJD"))
               (Image_open (Demo.lib Demo.plain_model)).
Proof. repeat split; try reflexivity; vm_compute; discriminate. Qed.

(** ** The route handlers *)

Ltac unfold_M :=
  unfold handler, query, caption, query_stream, caption_stream,
    the_generation, load_model, load_tokenizer, load_name, lift, raise,
    mbind, M_bind, mret, M_ret in *.

Ltac destruct_match :=
  match goal with
  | |- context [match ?x with _ => _ end] =>
      lazymatch x with
      | context [match _ with _ => _ end] => fail
      | _ => destruct x eqn:?
      end
  end.

Ltac run_M :=
  unfold_M; repeat (cbn -[py getitem]; destruct_match); cbn -[py getitem].

Section Handlers.

Context (L : Libraries).
Implicit Types (g : gmap string (object L)) (r : route) (request : Request).

(** Reading a module-level name leaves the namespace as it is. *)
Lemma load_model_frame g : (load_model L g).1 = g.
Proof. by run_M. Qed.

Lemma load_tokenizer_frame g : (load_tokenizer L g).1 = g.
Proof. by run_M. Qed.

Lemma the_generation_frame gen g : (the_generation L gen g).1 = g.
Proof. by run_M. Qed.

Lemma handler_frame r request g : (handler L r request g).1 = g.
Proof. destruct r; by run_M. Qed.

(** An exception raised while the image payload is decoded escapes the
    handler. *)
Lemma handler_image_error r request g data v e :
  request_json request = Ok data →
  getitem data (py "image_url") = Ok v →
  process_base64_image L v = Raise e →
  handler L r request g = (g, Raise e).
Proof. intros Hd Hv He. destruct r; unfold_M; by rewrite Hd, Hv, He. Qed.

(** C3 (as amended).  On every route, a request whose image payload
    makes [process_base64_image] raise (no comma in the string, a
    field after the first comma that the base64 decoder rejects, or
    bytes that the image library rejects) is not answered with a
    client-error status: the exception escapes the handler unhandled,
    the framework answers 500, and the module namespace is as before. *)
Theorem malformed_image_is_server_error r request g data v e :
  request_json request = Ok data →
  getitem data (py "image_url") = Ok v →
  process_base64_image L v = Raise e →
  handler L r request g = (g, Raise e)
  ∧ http_status L (handler L r request g).2 = 500
  ∧ ¬ client_error (http_status L (handler L r request g).2).
Proof.
  intros Hd Hv He.
  rewrite (handler_image_error r request g data v e Hd Hv He). simpl.
  split; [done|]. split; [done|]. unfold client_error. lia.
Qed.

(** C4 (as amended).  A request to /query or /query/stream whose body
    has no [question] member is not answered with a client-error
    status: the handler raises, the framework answers 500.  When the
    image payload is in order the exception is the [KeyError] of
    [data["question"]]. *)
Theorem missing_question_is_server_error r request g (d : gmap pystr pyval) :
  r = Query ∨ r = QueryStream →
  request_json request = Ok (PDict d) →
  d !! py "question" = None →
  ∃ e, handler L r request g = (g, Raise e)
       ∧ http_status L (handler L r request g).2 = 500
       ∧ ¬ client_error (http_status L (handler L r request g).2)
       ∧ (∀ v image, d !! py "image_url" = Some v →
                     process_base64_image L v = Ok image →
                     e = KeyError (py "question")).
Proof.
  intros Hr Hd Hq.
  assert (∃ e, handler L r request g = (g, Raise e)
               ∧ (∀ v image, d !! py "image_url" = Some v →
                             process_base64_image L v = Ok image →
                             e = KeyError (py "question"))) as (e & He & Hk).
  { destruct Hr as [-> | ->]; unfold_M; rewrite Hd; simpl.
    all: destruct (d !! py "image_url") as [v|] eqn:Hv;
      [| eexists; split; [reflexivity | by intros ? ? [=]]].
    all: destruct (process_base64_image L v) as [image|e] eqn:Hi;
      [| eexists; split; [reflexivity | intros ? ? [= <-] ?; congruence]].
    all: rewrite Hq; eexists; split; [reflexivity | done]. }
  exists e. rewrite He. simpl. repeat split; auto. unfold client_error. lia.
Qed.

(** What each handler has done on the way when it returns a response. *)
Lemma query_success_inv request g g' resp :
  query L request g = (g', Ok resp) →
  ∃ data url image md emb q tok answer,
    request_json request = Ok data
    ∧ getitem data (py "image_url") = Ok url
    ∧ process_base64_image L url = Ok image
    ∧ g !! "moondream" = Some (OModel md)
    ∧ encode_image md image = Ok emb
    ∧ getitem data (py "question") = Ok q
    ∧ g !! "tokenizer" = Some (OTokenizer tok)
    ∧ result (answer_question md emb q tok) = Ok answer
    ∧ resp = JSONResponse (PDict {[ py "answer" := PStr answer ]}).
Proof. run_M; intros [= <- <-]; simplify_eq; repeat esplit; eauto. Qed.

Lemma caption_success_inv request g g' resp :
  caption L request g = (g', Ok resp) →
  ∃ data url image md emb tok text,
    request_json request = Ok data
    ∧ getitem data (py "image_url") = Ok url
    ∧ process_base64_image L url = Ok image
    ∧ g !! "moondream" = Some (OModel md)
    ∧ encode_image md image = Ok emb
    ∧ g !! "tokenizer" = Some (OTokenizer tok)
    ∧ result (answer_question md emb (PStr caption_prompt) tok) = Ok text
    ∧ resp = JSONResponse (PDict {[ py "caption" := PStr text ]}).
Proof. run_M; intros [= <- <-]; simplify_eq; repeat esplit; eauto. Qed.

Lemma query_stream_success_inv request g g' resp :
  query_stream L request g = (g', Ok resp) →
  ∃ data url image md emb q,
    request_json request = Ok data
    ∧ getitem data (py "image_url") = Ok url
    ∧ process_base64_image L url = Ok image
    ∧ g !! "moondream" = Some (OModel md)
    ∧ encode_image md image = Ok emb
    ∧ getitem data (py "question") = Ok q
    ∧ resp = StreamingResponse {| image_embeds := emb; question := q |}
               (py "application/x-ndjson").
Proof. run_M; intros [= <- <-]; simplify_eq; repeat esplit; eauto. Qed.

Lemma caption_stream_success_inv request g g' resp :
  caption_stream L request g = (g', Ok resp) →
  ∃ data url image md emb,
    request_json request = Ok data
    ∧ getitem data (py "image_url") = Ok url
    ∧ process_base64_image L url = Ok image
    ∧ g !! "moondream" = Some (OModel md)
    ∧ encode_image md image = Ok emb
    ∧ resp = StreamingResponse
               {| image_embeds := emb; question := PStr caption_prompt |}
               (py "application/x-ndjson").
Proof. run_M; intros [= <- <-]; simplify_eq; repeat esplit; eauto. Qed.

(** C6.  A request that succeeds went through [process_base64_image]
    and [moondream.encode_image]; then /query answers the one-member
    object with key [answer], /caption the one-member object with key
    [caption], and the member is the value [answer_question] returned
    for the embedding and the prompt.  The prompt is the request's
    [question] on the query routes and the fixed caption request on
    the caption routes; the streaming routes hand the same embedding
    and prompt to [stream_response]. *)
Theorem successful_response_shape r request g g' resp :
  handler L r request g = (g', Ok resp) →
  ∃ data url image md emb,
    request_json request = Ok data
    ∧ getitem data (py "image_url") = Ok url
    ∧ process_base64_image L url = Ok image
    ∧ g !! "moondream" = Some (OModel md)
    ∧ encode_image md image = Ok emb
    ∧ match r with
      | Query => ∃ q tok answer,
          getitem data (py "question") = Ok q
          ∧ g !! "tokenizer" = Some (OTokenizer tok)
          ∧ result (answer_question md emb q tok) = Ok answer
          ∧ resp = JSONResponse (PDict {[ py "answer" := PStr answer ]})
      | Caption => ∃ tok text,
          g !! "tokenizer" = Some (OTokenizer tok)
          ∧ result (answer_question md emb
                      (PStr (py "Generate a detailed caption for this image."))
                      tok) = Ok text
          ∧ resp = JSONResponse (PDict {[ py "caption" := PStr text ]})
      | QueryStream => ∃ q,
          getitem data (py "question") = Ok q
          ∧ resp = StreamingResponse
                     {| image_embeds := emb; question := q |}
                     (py "application/x-ndjson")
      | CaptionStream =>
          resp = StreamingResponse
                   {| image_embeds := emb;
                      question :=
                        PStr (py "Generate a detailed caption for this image.") |}
                   (py "application/x-ndjson")
      end.
Proof.
  destruct r; simpl; intros Hresp.
  - apply query_success_inv in Hresp
      as (data & url & image & md & emb & q & tok & answer & H).
    exists data, url, image, md, emb. split_and?; try apply H.
    exists q, tok, answer. split_and?; apply H.
  - apply caption_success_inv in Hresp
      as (data & url & image & md & emb & tok & text & H).
    exists data, url, image, md, emb. split_and?; try apply H.
    exists tok, text. split_and?; apply H.
  - apply query_stream_success_inv in Hresp
      as (data & url & image & md & emb & q & H).
    exists data, url, image, md, emb. split_and?; try apply H.
    exists q. split_and?; apply H.
  - apply caption_stream_success_inv in Hresp
      as (data & url & image & md & emb & H).
    exists data, url, image, md, emb. split_and?; apply H.
Qed.

End Handlers.

(** A witness of C3 (as amended): a caption request whose [image_url] has no comma. *)
Lemma malformed_image_is_server_error_witness :
  let L := Demo.lib Demo.plain_model in
  let g := Demo.namespace Demo.plain_model in
  let request := Demo.body [(py "image_url", PStr (py "hello"))] in
  handler L Caption request g = (g, Raise IndexError)
  ∧ http_status L (handler L Caption request g).2 = 500
  ∧ ¬ client_error (http_status L (handler L Caption request g).2).
Proof.
  intros L g request.
  apply (malformed_image_is_server_error L Caption request g
           (PDict (list_to_map [(py "image_url", PStr (py "hello"))]))
           (PStr (py "hello")) IndexError); vm_compute; reflexivity.
Defined.

(** C3 (as stated) fails: /query with an [image_url] that is not a data
    URL is answered with 500, which is not a client-error status. *)
Lemma malformed_image_not_client_error :
  let L := Demo.lib Demo.plain_model in
  let out := (query L (Demo.body [(py "image_url", PStr (py "hello"));
                                  (py "question", PStr (py "what is this?"))])
                (Demo.namespace Demo.plain_model)).2 in
  out = Raise IndexError
  ∧ http_status L out = 500
  ∧ ¬ client_error (http_status L out).
Proof.
  vm_compute. split; [reflexivity|]. split; [reflexivity|].
  intros [_ H]. discriminate H.
Qed.

(** A witness of C4 (as amended): /query/stream with a decodable image
    and no [question]. *)
Lemma missing_question_is_server_error_witness :
  let L := Demo.lib Demo.plain_model in
  let g := Demo.namespace Demo.plain_model in
  let request := Demo.body [(py "image_url", PStr (py "data:image/png;base64,QUJD"))] in
  ∃ e, handler L QueryStream request g = (g, Raise e)
       ∧ http_status L (handler L QueryStream request g).2 = 500
       ∧ ¬ client_error (http_status L (handler L QueryStream request g).2)
       ∧ (∀ v image,
            (list_to_map [(py "image_url", PStr (py "data:image/png;base64,QUJD"))]
               : gmap pystr pyval) !! py "image_url" = Some v →
            process_base64_image L v = Ok image →
            e = KeyError (py "question")).
Proof.
  intros L g request.
  apply (missing_question_is_server_error L QueryStream request g
           (list_to_map [(py "image_url", PStr (py "data:image/png;base64,QUJD"))])).
  - right; reflexivity.
  - reflexivity.
  - vm_compute; reflexivity.
Defined.

(** C4 (as stated) fails: /query with a decodable image and no
    [question] raises [KeyError] and is answered with 500. *)
Lemma missing_question_not_client_error :
  let L := Demo.lib Demo.plain_model in
  let out := (query L (Demo.body [(py "image_url", PStr (py "data:image/png;base64,QUJD"))])
                (Demo.namespace Demo.plain_model)).2 in
  out = Raise (KeyError (py "question"))
  ∧ http_status L out = 500
  ∧ ¬ client_error (http_status L out).
Proof.
  vm_compute. split; [reflexivity|]. split; [reflexivity|].
  intros [_ H]. discriminate H.
Qed.

(** A witness of C6: a /query request on the small libraries. *)
Lemma successful_response_shape_witness :
  let L := Demo.lib Demo.plain_model in
  let g := Demo.namespace Demo.plain_model in
  let request :=
    Demo.body [(py "image_url", PStr (py "data:image/png;base64,QUJD"));
               (py "question", PStr (py "what is this?"))] in
  ∃ data url image md emb,
    request_json request = Ok data
    ∧ getitem data (py "image_url") = Ok url
    ∧ process_base64_image L url = Ok image
    ∧ g !! "moondream" = Some (OModel md)
    ∧ encode_image md image = Ok emb
    ∧ ∃ q tok answer,
        getitem data (py "question") = Ok q
        ∧ g !! "tokenizer" = Some (OTokenizer tok)
        ∧ result (answer_question md emb q tok) = Ok answer
        ∧ @JSONResponse L (PDict {[ py "answer" := PStr (py "A cat.") ]})
          = JSONResponse (PDict {[ py "answer" := PStr answer ]}).
Proof.
  intros L g request.
  apply (successful_response_shape L Query request g g). reflexivity.
Defined.

(** ** The module body *)

Section Startup.

Context (L : Libraries) (os : OS).
Implicit Types (g : gmap string (object L)).

Lemma print_paths_ok i (l : list pystr) g : (print_paths L i l g).2 = Ok tt.
Proof.
  revert i g. induction l as [|path l IH]; intros i g; [done|].
  simpl. unfold mbind, M_bind, store_name. apply IH.
Qed.

(** The outcome of lines 22-42, case by case. *)
Lemma startup_checks_outcome g :
  (startup_checks L os g).2 =
    match detect_device L with
    | Raise e => Raise e
    | Ok _ =>
        let pythonpath := default [] (os_environ os !! py "PYTHONPATH") in
        if decide (pythonpath = []) then
          Raise (RuntimeError (py "PYTHONPATH environment variable not set"))
        else if decide (length (split (path_separator os) pythonpath) < 2)%nat then
          Raise (RuntimeError
            (py "PYTHONPATH should contain both current directory and models directory. Got: "
             ++ pythonpath))
        else
          match split (path_separator os) pythonpath !! 1%nat with
          | Some entry =>
              let model_path := os_path_join os entry weights_file in
              if os_path_exists os model_path then Ok model_path
              else Raise (RuntimeError (py "Model file not found at " ++ model_path))
          | None => Raise IndexError
          end
    end.
Proof.
  unfold startup_checks, list_getitem, mbind, M_bind, store_name, lift, raise,
    mret, M_ret.
  destruct (detect_device L) as [dd|e]; [|done]. cbn -[py split].
  destruct (decide (default [] (os_environ os !! py "PYTHONPATH") = []));
    [done|]. cbn -[py split].
  destruct (decide (length _ < 2)%nat); [done|].
  match goal with
  | |- context [print_paths L ?i ?l ?g0] =>
      pose proof (print_paths_ok i l g0) as Hp;
      destruct (print_paths L i l g0) as [g1 r1]
  end.
  simpl in Hp; subst r1. cbn -[py split].
  destruct (split _ _ !! 1%nat) as [entry|]; [|done]. cbn -[py split].
  by destruct (os_path_exists os _).
Qed.

Lemma module_body_raises g e :
  (startup_checks L os g).2 = Raise e → (module_body L os g).2 = Raise e.
Proof.
  unfold module_body, mbind, M_bind.
  destruct (startup_checks L os g) as [g1 [mp|e1]]; simpl; congruence.
Qed.

(** C5.  The module body raises, before it gets to load the tokenizer
    and the model, whenever PYTHONPATH is unset, or splits into fewer
    than two entries, or the weight file is not found under its second
    entry.  Conversely the checks are passed only when the variable is
    set, has at least two entries, and the weight file exists under the
    second entry; and they are passed then, unless [detect_device]
    itself raised. *)
Theorem startup_is_fatal_unless_configured g :
  let env := os_environ os !! py "PYTHONPATH" in
  let sep := path_separator os in
  ((env = None
    ∨ (∃ v, env = Some v ∧ (length (split sep v) < 2)%nat)
    ∨ (∃ v entry, env = Some v ∧ split sep v !! 1%nat = Some entry
                  ∧ os_path_exists os (os_path_join os entry weights_file) = false)) →
   ∃ e, (startup_checks L os g).2 = Raise e ∧ (module_body L os g).2 = Raise e)
  ∧ (∀ model_path, (startup_checks L os g).2 = Ok model_path →
      ∃ v entry, env = Some v ∧ (2 ≤ length (split sep v))%nat
                 ∧ split sep v !! 1%nat = Some entry
                 ∧ model_path = os_path_join os entry weights_file
                 ∧ os_path_exists os model_path = true)
  ∧ (∀ dd v entry, detect_device L = Ok dd → env = Some v →
      (2 ≤ length (split sep v))%nat → split sep v !! 1%nat = Some entry →
      os_path_exists os (os_path_join os entry weights_file) = true →
      (startup_checks L os g).2 = Ok (os_path_join os entry weights_file)).
Proof.
  intros env sep. subst env sep.
  split; [|split].
  - intros Hbad.
    assert (∃ e, (startup_checks L os g).2 = Raise e) as [e He];
      [|exists e; auto using module_body_raises].
    rewrite startup_checks_outcome.
    destruct (detect_device L) as [dd|e]; [|by eexists]. cbn zeta.
    destruct Hbad as [-> | [(v & -> & Hlen) | (v & entry & -> & Hentry & Hex)]];
      simpl.
    + by eexists.
    + destruct (decide (v = [])); [by eexists|].
      destruct (decide (length _ < 2)%nat); [by eexists | lia].
    + destruct (decide (v = [])); [by eexists|].
      destruct (decide (length _ < 2)%nat); [by eexists|].
      rewrite Hentry, Hex. by eexists.
  - intros model_path. rewrite startup_checks_outcome.
    destruct (detect_device L) as [dd|e]; [|done]. cbn zeta.
    destruct (os_environ os !! py "PYTHONPATH") as [v|]; simpl; [|done].
    destruct (decide (v = [])); [done|].
    destruct (decide (length _ < 2)%nat); [done|].
    destruct (split _ v !! 1%nat) as [entry|] eqn:Hentry; [|done].
    destruct (os_path_exists os _) eqn:Hex; [|done].
    intros [= <-]. exists v, entry. repeat split; auto. lia.
  - intros dd v entry Hdd Hv Hlen Hentry Hex.
    rewrite startup_checks_outcome, Hdd, Hv. simpl.
    destruct (decide (v = [])) as [->|]; [simpl in Hlen; lia|].
    destruct (decide (length _ < 2)%nat); [lia|].
    by rewrite Hentry, Hex.
Qed.

(** When the module body completes, the two names the handlers read are
    bound to what the loaders returned. *)
Lemma module_body_binds g g' :
  module_body L os g = (g', Ok tt) →
  ∃ tok md model_path dt dv,
    AutoTokenizer_from_pretrained L = Ok tok
    ∧ Moondream_from_pretrained L model_path dt dv = Ok md
    ∧ g' !! "tokenizer" = Some (OTokenizer tok)
    ∧ g' !! "moondream" = Some (OModel md).
Proof.
  unfold module_body, load_weights, mbind, M_bind, store_name, load_name, lift,
    raise.
  destruct (startup_checks L os g) as [g1 [model_path|e]]; [|done].
  destruct (AutoTokenizer_from_pretrained L) as [tok|e] eqn:Htok; [|done].
  destruct (<["tokenizer":=OTokenizer tok]> g1 !! "dtype") as [o1|]; [|done].
  destruct (<["tokenizer":=OTokenizer tok]> g1 !! "device") as [o2|]; [|done].
  destruct o1 as [?|?|dt|?|?]; try done.
  destruct o2 as [?|dv|?|?|?]; try done.
  destruct (Moondream_from_pretrained L model_path dt dv) as [md|e] eqn:Hmd;
    [|done].
  intros [= <-]. exists tok, md, model_path, dt, dv. split_and!; try done.
  - by rewrite lookup_insert_ne, lookup_insert_eq.
  - by rewrite lookup_insert_eq.
Qed.

End Startup.

(** A witness of C5: no PYTHONPATH at all, and a complete configuration. *)
Lemma startup_is_fatal_unless_configured_witness :
  let L := Demo.lib Demo.plain_model in
  (∃ e, (startup_checks L Demo.bare ∅).2 = Raise e
        ∧ (module_body L Demo.bare ∅).2 = Raise e)
  ∧ (startup_checks L Demo.posix ∅).2 = Ok (py "/srv/models/moondream-2b-int8.mf.gz").
Proof.
  intros L. split.
  - apply (startup_is_fatal_unless_configured L Demo.bare ∅).
    left. reflexivity.
  - apply (proj2 (proj2 (startup_is_fatal_unless_configured L Demo.posix ∅))
             (tt, tt) (py "/srv/app:/srv/models") (py "/srv/models"));
      vm_compute; try reflexivity; lia.
Defined.

(** ** The streaming bridge *)

Section Bridge.

Context (L : Libraries) (g : gmap string (object L)) (gen : generator L).

Lemma fmap_Text_cons_inv (ts : list pystr) x q :
  x :: q = Text <$> ts → ∃ t ts', ts = t :: ts' ∧ x = Text t ∧ q = Text <$> ts'.
Proof. destruct ts as [|t ts']; intros [= -> ->]; eauto. Qed.

Lemma fmap_Text_stop_cons_inv (ts : list pystr) x q :
  x :: q = (Text <$> ts) ++ [StopSignal] →
  (ts = [] ∧ x = StopSignal ∧ q = [])
  ∨ (∃ t ts', ts = t :: ts' ∧ x = Text t ∧ q = (Text <$> ts') ++ [StopSignal]).
Proof. destruct ts as [|t ts']; intros [= -> ->]; eauto 10. Qed.

Ltac invert_queue :=
  repeat match goal with
  | H : _ :: _ = Text <$> _ |- _ =>
      apply fmap_Text_cons_inv in H as (? & ? & -> & ? & ->)
  | H : _ :: _ = (Text <$> _) ++ [StopSignal] |- _ =>
      apply fmap_Text_stop_cons_inv in H
        as [(-> & ? & ->) | (? & ? & -> & ? & ->)]
  end; simplify_eq.

Lemma fmap_snoc {A B} (f : A → B) (l : list A) (x : A) :
  (f <$> l) ++ [f x] = f <$> (l ++ [x]).
Proof. by rewrite fmap_app. Qed.

Lemma started_step run s s' :
  started run s → step L g gen s s' → started run s'.
Proof.
  intros Hs Hstep.
  destruct Hs as [delivered ts todo Hall | delivered ts a Ha Hall
                 | delivered ts e He Hall | a Ha];
    inversion Hstep; subst; simplify_eq; invert_queue;
    rewrite ?fmap_snoc, ?app_nil_r in *; subst.
  - apply started_running. by rewrite <- Hall, <- !app_assoc.
  - match goal with H : Ok _ = result run |- _ => symmetry in H end.
    eapply started_returned; eauto.
  - match goal with H : Raise _ = result run |- _ => symmetry in H end.
    eapply started_died; eauto.
  - apply started_running. by rewrite <- Hall, <- !app_assoc.
  - eapply started_returned; eauto. by rewrite <- Hall, <- !app_assoc.
  - eapply started_exhausted; eauto.
  - eapply started_died; eauto. by rewrite <- Hall, <- !app_assoc.
Qed.

Lemma reachable_shape s :
  rtc (step L g gen) new_stream s →
  s = new_stream
  ∨ (∃ e, (the_generation L gen g).2 = Raise e
          ∧ s = {| status := Failed e; worker := None;
                   text_queue := []; yielded := [] |})
  ∨ (∃ run, (the_generation L gen g).2 = Ok run ∧ started run s).
Proof.
  revert s. apply rtc_ind_r; [by left|]. intros s s' Hs Hstep IH.
  destruct IH as [-> | [(e & He & ->) | (run & Hrun & Hst)]].
  - inversion Hstep; subst.
    + right; right. exists run. split; [done|].
      by apply (started_running run [] [] (pushed run)).
    + right; left. eauto.
  - inversion Hstep.
  - right; right. eauto using started_step.
Qed.

Lemma step_decreases s s' :
  step L g gen s s' → (steps_left L g gen s' < steps_left L g gen s)%nat.
Proof.
  unfold steps_left, produced.
  destruct 1 as [run q y Hrun | e q y He | | | | |]; simpl;
    rewrite ?Hrun, ?He, ?length_app; simpl; lia.
Qed.

Lemma nsteps_bounded n s s' :
  nsteps (step L g gen) n s s' →
  (n + steps_left L g gen s' ≤ steps_left L g gen s)%nat.
Proof.
  induction 1 as [|n s1 s2 s3 Hstep _ IH]; [done|].
  apply step_decreases in Hstep. lia.
Qed.

Lemma started_steps_left run s :
  (the_generation L gen g).2 = Ok run → started run s →
  (steps_left L g gen s ≤ 2 * length (produced L g gen) + 2)%nat.
Proof.
  intros Hrun Hs. unfold steps_left, produced. rewrite Hrun.
  destruct Hs as [delivered ts todo Hall | delivered ts a Ha Hall
                 | delivered ts e He Hall | a Ha]; simpl;
    rewrite <- ?Hall, ?length_app, ?length_fmap; simpl; lia.
Qed.

Lemma reachable_steps_left s :
  rtc (step L g gen) new_stream s →
  (steps_left L g gen s ≤ 2 * length (produced L g gen) + 3)%nat.
Proof.
  intros [-> | [(e & He & ->) | (run & Hrun & Hst)]]%reachable_shape.
  - unfold steps_left; simpl; lia.
  - unfold steps_left; simpl; lia.
  - pose proof (started_steps_left run s Hrun Hst). lia.
Qed.

(** What was yielded is a prefix of what was produced, in order. *)
Lemma started_prefix run s :
  started run s → ∃ k, yielded s = chunk_line <$> take k (pushed run).
Proof.
  intros [delivered ts todo Hall | delivered ts a Ha Hall
         | delivered ts e He Hall | a Ha]; simpl.
  1-3: exists (length delivered); rewrite <- Hall; by rewrite take_app_length.
  exists (length (pushed run)). by rewrite firstn_all.
Qed.

(** A started stream whose worker returns either is exhausted or can
    make a step. *)
Lemma started_progress run a s :
  result run = Ok a → started run s →
  status s = Exhausted ∨ ∃ s', step L g gen s s'.
Proof.
  intros Ha [delivered ts todo Hall | delivered ts a' Ha' Hall
            | delivered ts e He Hall | a' Ha']; simpl.
  - right. rewrite Ha. destruct todo as [|t todo]; eexists; constructor.
  - right. destruct ts as [|t ts]; eexists; constructor.
  - congruence.
  - by left.
Qed.

(** A started stream whose worker raises can make a step until the
    worker has died and the queue is empty. *)
Lemma started_stuck_after_failure run e s :
  result run = Raise e → started run s → stuck L g gen s →
  status s = Looping ∧ worker s = Some (Died e) ∧ text_queue s = []
  ∧ yielded s = chunk_line <$> pushed run.
Proof.
  intros He [delivered ts todo Hall | delivered ts a' Ha' Hall
            | delivered ts e' He' Hall | a' Ha'] Hstuck; simpl.
  - exfalso. rewrite He in Hstuck.
    destruct todo as [|t todo]; eapply Hstuck; constructor.
  - congruence.
  - destruct ts as [|t ts]; [|exfalso; eapply Hstuck; constructor].
    rewrite app_nil_r in Hall. subst. split_and!; [done|congruence|done|done].
  - congruence.
Qed.

Lemma started_not_exhausted_after_failure run e s :
  result run = Raise e → started run s → status s = Looping.
Proof. intros He [| | |]; simpl; congruence. Qed.

(** The worker can always run ahead of the consumer ... *)
Lemma worker_runs st todo ending q y :
  rtc (step L g gen)
    {| status := st; worker := Some (Running todo ending);
       text_queue := q; yielded := y |}
    {| status := st; worker := Some (Running [] ending);
       text_queue := q ++ (Text <$> todo); yielded := y |}.
Proof.
  revert q. induction todo as [|t todo IH]; intros q.
  - rewrite app_nil_r. apply rtc_refl.
  - eapply rtc_l; [apply step_put|].
    replace (q ++ (Text <$> t :: todo)) with ((q ++ [Text t]) ++ (Text <$> todo))
      by (by rewrite <- app_assoc).
    apply IH.
Qed.

(** ... and the consumer can always drain the queue. *)
Lemma consumer_drains w ts q y :
  rtc (step L g gen)
    {| status := Looping; worker := w;
       text_queue := (Text <$> ts) ++ q; yielded := y |}
    {| status := Looping; worker := w;
       text_queue := q; yielded := y ++ (chunk_line <$> ts) |}.
Proof.
  revert y. induction ts as [|t ts IH]; intros y.
  - rewrite app_nil_r. apply rtc_refl.
  - eapply rtc_l; [apply step_yield|].
    replace (y ++ (chunk_line <$> t :: ts))
      with ((y ++ [chunk_line t]) ++ (chunk_line <$> ts))
      by (by rewrite <- app_assoc).
    apply IH.
Qed.

Lemma complete_run run a :
  (the_generation L gen g).2 = Ok run → result run = Ok a →
  rtc (step L g gen) new_stream
    {| status := Exhausted; worker := Some Returned;
       text_queue := []; yielded := chunk_line <$> pushed run |}.
Proof.
  intros Hrun Ha.
  eapply rtc_l; [by apply step_enter|]. rewrite Ha.
  etrans; [apply worker_runs|].
  eapply rtc_l; [apply step_end|]. simpl.
  etrans; [apply consumer_drains|].
  eapply rtc_l; [apply step_stop|]. apply rtc_refl.
Qed.

Lemma failing_run run e :
  (the_generation L gen g).2 = Ok run → result run = Raise e →
  rtc (step L g gen) new_stream
    {| status := Looping; worker := Some (Died e);
       text_queue := []; yielded := chunk_line <$> pushed run |}.
Proof.
  intros Hrun He.
  eapply rtc_l; [by apply step_enter|]. rewrite He.
  etrans; [apply worker_runs|].
  eapply rtc_l; [apply step_die|]. simpl.
  rewrite <- (app_nil_r (Text <$> pushed run)).
  apply (consumer_drains _ (pushed run) [] []).
Qed.

Lemma started_exhausted_inv run s :
  started run s → status s = Exhausted →
  s = {| status := Exhausted; worker := Some Returned;
         text_queue := []; yielded := chunk_line <$> pushed run |}.
Proof. by intros [| | |]. Qed.

(** Whatever the interleaving so far, a stream whose worker returns
    can be run to the end. *)
Lemma started_can_finish run a s :
  result run = Ok a → started run s →
  rtc (step L g gen) s
    {| status := Exhausted; worker := Some Returned;
       text_queue := []; yielded := chunk_line <$> pushed run |}.
Proof.
  intros Ha. remember (steps_left L g gen s) as n eqn:Hn.
  revert s Hn. induction n as [n IH] using lt_wf_ind. intros s -> Hs.
  destruct (started_progress run a s Ha Hs) as [Hex | [s' Hstep]].
  - rewrite (started_exhausted_inv run s Hs Hex) at 1. apply rtc_refl.
  - eapply rtc_l; [exact Hstep|].
    eapply IH; [by apply step_decreases | done | by eapply started_step].
Qed.

(** C8.  When the generation raises in the worker thread, nothing of
    it reaches the consumer of the generator: the generator neither
    raises nor returns, every line it yields is the line of a produced
    fragment, in order, and once the worker has died and the queue is
    drained the generator waits (for ever) in its loop. *)
Theorem worker_failure_is_not_surfaced run e s :
  (the_generation L gen g).2 = Ok run →
  result run = Raise e →
  rtc (step L g gen) new_stream s →
  (status s = Created ∨ status s = Looping)
  ∧ (∃ k, yielded s = chunk_line <$> take k (pushed run))
  ∧ (stuck L g gen s →
     status s = Looping ∧ worker s = Some (Died e) ∧ text_queue s = []
     ∧ yielded s = chunk_line <$> pushed run).
Proof.
  intros Hrun He Hs.
  destruct (reachable_shape s Hs) as [-> | [(e' & He' & ->) | (run' & Hrun' & Hst)]].
  - split_and!; [by left | by exists 0%nat |].
    intros Hstuck. exfalso. eapply Hstuck. by apply step_enter.
  - congruence.
  - assert (run' = run) as -> by congruence. split_and!.
    + right. by eapply started_not_exhausted_after_failure.
    + by apply started_prefix.
    + by apply started_stuck_after_failure.
Qed.

End Bridge.

(** A witness of C8: the small model whose generation raises after two
    fragments, run until nothing more can happen. *)
Lemma worker_failure_is_not_surfaced_witness :
  let L := Demo.lib Demo.failing_model in
  let g := Demo.namespace Demo.failing_model in
  let gen := Build_generator L (py "QUJD") (PStr (py "what is this?")) in
  let e := LibraryError "torch.OutOfMemoryError" in
  let s := {| status := Looping; worker := Some (Died e); text_queue := [];
              yielded := chunk_line <$> [py "A"; py " cat"] |} in
  (status s = Created ∨ status s = Looping)
  ∧ (∃ k, yielded s = chunk_line <$> take k [py "A"; py " cat"])
  ∧ (stuck L g gen s →
     status s = Looping ∧ worker s = Some (Died e) ∧ text_queue s = []
     ∧ yielded s = chunk_line <$> [py "A"; py " cat"]).
Proof.
  intros L g gen e s.
  apply (worker_failure_is_not_surfaced L g gen
           {| pushed := [py "A"; py " cat"]; result := Raise e |} e s);
    [reflexivity | reflexivity |].
  apply (failing_run L g gen
           {| pushed := [py "A"; py " cat"]; result := Raise e |} e); reflexivity.
Defined.

(** ** The framing of a streamed line *)

Ltac euclid := zify; Z.to_euclidean_division_equations; lia.

Lemma land_15 n : N.land n 15 = n mod 16.
Proof. change 15 with (N.ones 4). by rewrite N.land_ones. Qed.

Lemma land_1023 n : N.land n 1023 = n mod 1024.
Proof. change 1023 with (N.ones 10). by rewrite N.land_ones. Qed.

Lemma land_shiftl_small h l k : l < 2 ^ k → N.land (N.shiftl h k) l = 0.
Proof.
  intros Hl. apply N.bits_inj. intros i. rewrite N.land_spec, N.bits_0.
  destruct (N.lt_ge_cases i k) as [Hi|Hi].
  - by rewrite N.shiftl_spec_low.
  - rewrite <- (N.mod_small l (2 ^ k)) by done.
    rewrite N.mod_pow2_bits_high by done. apply andb_false_r.
Qed.

Lemma lor_shiftl_small h l k : l < 2 ^ k → N.lor (N.shiftl h k) l = h * 2 ^ k + l.
Proof.
  intros Hl. rewrite <- N.lxor_lor by (by apply land_shiftl_small).
  rewrite <- N.add_nocarry_lxor by (by apply land_shiftl_small).
  by rewrite N.shiftl_mul_pow2.
Qed.

(** The two halves of a surrogate pair, as [escape_char] computes them. *)
Lemma high_half n :
  N.lor 55296 (N.land (N.shiftr n 10) 1023) = 55296 + (n / 1024) mod 1024.
Proof.
  rewrite land_1023, N.shiftr_div_pow2. change 55296 with (N.shiftl 54 10) at 1.
  rewrite lor_shiftl_small by (change (2 ^ 10) with 1024; by apply N.mod_lt).
  reflexivity.
Qed.

Lemma low_half n : N.lor 56320 (N.land n 1023) = 56320 + n mod 1024.
Proof.
  rewrite land_1023. change 56320 with (N.shiftl 55 10) at 1.
  rewrite lor_shiftl_small by (change (2 ^ 10) with 1024; by apply N.mod_lt).
  reflexivity.
Qed.

Lemma join_halves h l :
  h < 1024 → l < 1024 → join_surrogates (55296 + h) (56320 + l) = 65536 + h * 1024 + l.
Proof.
  intros Hh Hl. unfold join_surrogates.
  replace (55296 + h - 55296) with h by lia.
  replace (56320 + l - 56320) with l by lia.
  rewrite lor_shiftl_small by done. change (2 ^ 10) with 1024. lia.
Qed.

Lemma hex_value_digit d : d < 16 → hex_value (hex_digit d) = Some d.
Proof.
  intros Hd.
  assert (d = 0 ∨ d = 1 ∨ d = 2 ∨ d = 3 ∨ d = 4 ∨ d = 5 ∨ d = 6 ∨ d = 7 ∨ d = 8
          ∨ d = 9 ∨ d = 10 ∨ d = 11 ∨ d = 12 ∨ d = 13 ∨ d = 14 ∨ d = 15) as H by lia.
  repeat (destruct H as [-> | H]; [reflexivity|]). by subst.
Qed.

Lemma hex_digit_range d : 48 ≤ hex_digit d ≤ 57 ∨ 97 ≤ hex_digit d.
Proof. unfold hex_digit. destruct (N.ltb_spec d 10); lia. Qed.

(** Reading back what [hex4] wrote. *)
Lemma hex4_value_hex4 n :
  n < 65536 →
  hex4_value (hex_digit (N.land (N.shiftr n 12) 15))
             (hex_digit (N.land (N.shiftr n 8) 15))
             (hex_digit (N.land (N.shiftr n 4) 15))
             (hex_digit (N.land n 15)) = Some n.
Proof.
  intros Hn. unfold hex4_value. rewrite !land_15, !N.shiftr_div_pow2.
  change (2 ^ 12) with 4096. change (2 ^ 8) with 256. change (2 ^ 4) with 16.
  rewrite !hex_value_digit by (by apply N.mod_lt). f_equal. euclid.
Qed.

(** *** Unfolding [scanstring] on the shapes [escape_char] produces *)

Lemma scanstring_plain c X :
  c ≠ 34 → c ≠ 92 → 32 ≤ c → scanstring (c :: X) = cons_to c (scanstring X).
Proof.
  intros H34 H92 H32. cbn [scanstring].
  destruct (N.eqb_spec c 34); [done|]. destruct (N.eqb_spec c 92); [done|].
  destruct (N.ltb_spec c 32); [lia | done].
Qed.

Lemma scanstring_simple e x X :
  e ≠ 117 → simple_escape e = Some x →
  scanstring (92 :: e :: X) = cons_to x (scanstring X).
Proof.
  intros H117 He. cbn [scanstring]. change (92 =? 34) with false.
  change (92 =? 92) with true. cbv iota.
  destruct (N.eqb_spec e 117); [done|]. by rewrite He.
Qed.

Lemma scanstring_u a b c d X :
  scanstring (92 :: 117 :: a :: b :: c :: d :: X) =
    match hex4_value a b c d with
    | None => None
    | Some u =>
        if is_high_surrogate u then
          match X with
          | x :: y :: X' =>
              if (x =? 92) && (y =? 117) then
                match X' with
                | a2 :: b2 :: c2 :: d2 :: Y =>
                    match hex4_value a2 b2 c2 d2 with
                    | None => None
                    | Some u2 =>
                        if is_low_surrogate u2
                        then cons_to (join_surrogates u u2) (scanstring Y)
                        else cons_to u (scanstring X)
                    end
                | _ => None
                end
              else cons_to u (scanstring X)
          | _ => cons_to u (scanstring X)
          end
        else cons_to u (scanstring X)
    end.
Proof.
  cbn [scanstring]. change (92 =? 34) with false. change (92 =? 92) with true.
  change (117 =? 117) with true. cbv iota.
  destruct (hex4_value a b c d) as [u|]; [|done].
  destruct (is_high_surrogate u); [|done].
  destruct X as [|x [|y X]]; [done| by destruct (x =? 92) |].
  by destruct (x =? 92), (y =? 117).
Qed.

(** *** The shapes [escape_char] produces *)

Lemma escape_char_cases c :
  (escape_char c = [c] ∧ 32 ≤ c ≤ 126 ∧ c ≠ 34 ∧ c ≠ 92)
  ∨ (∃ e, escape_char c = [92; e] ∧ e ≠ 117 ∧ simple_escape e = Some c)
  ∨ (c < 65536 ∧ escape_char c = 92 :: 117 :: hex4 c)
  ∨ (65536 ≤ c
     ∧ escape_char c =
         92 :: 117 :: hex4 (55296 + ((c - 65536) / 1024) mod 1024)
         ++ 92 :: 117 :: hex4 (56320 + (c - 65536) mod 1024)).
Proof.
  unfold escape_char.
  destruct (N.eqb_spec c 92) as [->|?]; [right; left; by exists 92|].
  destruct (N.eqb_spec c 34) as [->|?]; [right; left; by exists 34|].
  destruct (N.leb_spec 32 c); cbn [andb].
  - destruct (N.leb_spec c 126); cbn [andb]; [left; split_and!; done || lia|].
    repeat match goal with
           | |- context [c =? ?k] => destruct (N.eqb_spec c k); [lia|]
           end.
    destruct (N.ltb_spec c 65536); [by right; right; left|].
    right; right; right. split; [done|]. cbv zeta. by rewrite high_half, low_half.
  - destruct (N.eqb_spec c 8) as [->|?]; [right; left; by exists 98|].
    destruct (N.eqb_spec c 12) as [->|?]; [right; left; by exists 102|].
    destruct (N.eqb_spec c 10) as [->|?]; [right; left; by exists 110|].
    destruct (N.eqb_spec c 13) as [->|?]; [right; left; by exists 114|].
    destruct (N.eqb_spec c 9) as [->|?]; [right; left; by exists 116|].
    destruct (N.ltb_spec c 65536); [by right; right; left | lia].
Qed.

Lemma simple_escape_not_newline e x : simple_escape e = Some x → e ≠ 10.
Proof. by intros He ->. Qed.

Lemma hex4_no_newline n : 10 ∉ hex4 n.
Proof.
  unfold hex4. rewrite !not_elem_of_cons. split_and!;
    try apply not_elem_of_nil;
    match goal with |- 10 ≠ hex_digit ?d => pose proof (hex_digit_range d); lia end.
Qed.

Lemma escape_char_no_newline c : 10 ∉ escape_char c.
Proof.
  destruct (escape_char_cases c)
    as [(-> & [? ?] & _) | [(e & -> & _ & He) | [(_ & ->) | (_ & ->)]]].
  - rewrite not_elem_of_cons. split; [lia | apply not_elem_of_nil].
  - apply simple_escape_not_newline in He.
    rewrite !not_elem_of_cons. split_and!; [lia | done | apply not_elem_of_nil].
  - rewrite !not_elem_of_cons. split_and!; [lia | lia | apply hex4_no_newline].
  - rewrite !not_elem_of_cons, not_elem_of_app, !not_elem_of_cons.
    split_and!; try lia; apply hex4_no_newline.
Qed.

Lemma escaped_no_newline s : 10 ∉ concat (List.map escape_char s).
Proof.
  induction s as [|c s IH]; simpl; [apply not_elem_of_nil|].
  rewrite not_elem_of_app. split; [apply escape_char_no_newline | done].
Qed.

(** *** Reading back one escaped character *)

Lemma scan_hex4_single n X :
  n < 65536 → is_high_surrogate n = false →
  scanstring ((92 :: 117 :: hex4 n) ++ X) = cons_to n (scanstring X).
Proof.
  intros Hn Hhigh. unfold hex4. simpl app.
  by rewrite scanstring_u, hex4_value_hex4, Hhigh.
Qed.

Lemma scan_hex4_pair h l X :
  h < 1024 → l < 1024 →
  scanstring ((92 :: 117 :: hex4 (55296 + h) ++ 92 :: 117 :: hex4 (56320 + l)) ++ X)
  = cons_to (65536 + h * 1024 + l) (scanstring X).
Proof.
  intros Hh Hl. unfold hex4. simpl app.
  rewrite scanstring_u, hex4_value_hex4 by lia.
  replace (is_high_surrogate (55296 + h)) with true
    by (unfold is_high_surrogate; symmetry; apply andb_true_iff;
        split; apply N.leb_le; lia).
  rewrite hex4_value_hex4 by lia.
  replace (is_low_surrogate (56320 + l)) with true
    by (unfold is_low_surrogate; symmetry; apply andb_true_iff;
        split; apply N.leb_le; lia).
  by rewrite join_halves.
Qed.

(** A character that is not a high surrogate is read back on its own;
    above [0x10FFFF] (where Python has no characters) the pair wraps
    round. *)
Lemma scan_escape_char c X :
  is_high_surrogate c = false →
  scanstring (escape_char c ++ X)
  = cons_to (if c <? 65536 then c else 65536 + (c - 65536) mod 1048576)
            (scanstring X).
Proof.
  intros Hhigh.
  destruct (escape_char_cases c)
    as [(-> & [? ?] & ? & ?) | [(e & -> & ? & He) | [(? & ->) | (? & ->)]]].
  - simpl app. rewrite scanstring_plain by done.
    by destruct (N.ltb_spec c 65536); [|lia].
  - simpl app. rewrite (scanstring_simple e c) by done.
    assert (c < 65536) as Hc.
    { unfold simple_escape in He.
      repeat (destruct (_ =? _); [injection He as <-; lia|]). done. }
    by destruct (N.ltb_spec c 65536); [|lia].
  - rewrite scan_hex4_single by done.
    by destruct (N.ltb_spec c 65536); [|lia].
  - rewrite scan_hex4_pair by (by apply N.mod_lt).
    destruct (N.ltb_spec c 65536); [lia|]. f_equal. euclid.
Qed.

Lemma scan_escape_char_scalar c X :
  is_scalar c = true → scanstring (escape_char c ++ X) = cons_to c (scanstring X).
Proof.
  unfold is_scalar. intros [Hc Hs%negb_true_iff]%andb_true_iff.
  apply N.ltb_lt in Hc.
  rewrite scan_escape_char.
  - destruct (N.ltb_spec c 65536); [done|]. f_equal. euclid.
  - unfold is_high_surrogate. apply andb_false_iff.
    apply andb_false_iff in Hs as [Hs|Hs]; [by left|].
    right. apply N.leb_gt. apply N.leb_gt in Hs. lia.
Qed.

Lemma scan_escaped_scalar s rest :
  Forall (λ c, is_scalar c = true) s →
  scanstring (concat (List.map escape_char s) ++ 34 :: rest) = Some (s, rest).
Proof.
  induction 1 as [|c s Hc _ IH]; simpl; [done|].
  by rewrite <- app_assoc, scan_escape_char_scalar, IH.
Qed.

(** *** Reading back a whole literal *)

Lemma simple_escape_small e x : simple_escape e = Some x → x < 93.
Proof.
  unfold simple_escape. intros He.
  repeat (destruct (_ =? _); [injection He as <-; lia|]). done.
Qed.

Lemma escape_char_high c :
  is_high_surrogate c = true → c < 65536 ∧ escape_char c = 92 :: 117 :: hex4 c.
Proof.
  unfold is_high_surrogate. intros [H1%N.leb_le H2%N.leb_le]%andb_true_iff.
  destruct (escape_char_cases c)
    as [(_ & [? ?] & _) | [(e & _ & _ & He) | [(? & ->) | (? & _)]]];
    [lia | apply simple_escape_small in He; lia | done | lia].
Qed.

Lemma scan_hex4_high c X :
  c < 65536 → is_high_surrogate c = true →
  scanstring ((92 :: 117 :: hex4 c) ++ X) =
    match X with
    | x :: y :: X' =>
        if (x =? 92) && (y =? 117) then
          match X' with
          | a2 :: b2 :: c2 :: d2 :: Y =>
              match hex4_value a2 b2 c2 d2 with
              | None => None
              | Some u2 =>
                  if is_low_surrogate u2
                  then cons_to (join_surrogates c u2) (scanstring Y)
                  else cons_to c (scanstring X)
              end
          | _ => None
          end
        else cons_to c (scanstring X)
    | _ => cons_to c (scanstring X)
    end.
Proof.
  intros Hc Hhigh. unfold hex4. simpl app.
  by rewrite scanstring_u, hex4_value_hex4, Hhigh.
Qed.

(** After a high surrogate the reader looks ahead.  What follows is
    itself the output of [escape_char], so either the high surrogate is
    read on its own, or the next character is a lone low surrogate and
    the two are read as one. *)
Lemma scan_after_high c s :
  is_high_surrogate c = true →
  (∀ rest,
     scanstring (escape_char c ++ concat (List.map escape_char s) ++ 34 :: rest)
     = cons_to c (scanstring (concat (List.map escape_char s) ++ 34 :: rest)))
  ∨ ∃ c' s' u,
      s = c' :: s'
      ∧ ∀ rest,
          scanstring (escape_char c ++ concat (List.map escape_char s) ++ 34 :: rest)
          = cons_to u (scanstring (concat (List.map escape_char s') ++ 34 :: rest)).
Proof.
  intros Hhigh. destruct (escape_char_high c Hhigh) as [Hc ->].
  destruct s as [|c' s'].
  { left. intros rest. rewrite scan_hex4_high by done.
    change (concat (List.map escape_char []) ++ 34 :: rest) with (34 :: rest).
    by destruct rest. }
  cbn [List.map concat].
  destruct (escape_char_cases c')
    as [(-> & [? ?] & ? & ?) | [(e & -> & ? & He) | [(? & ->) | (? & ->)]]].
  - left. intros rest. rewrite scan_hex4_high, <- app_assoc by done.
    generalize (concat (List.map escape_char s') ++ 34 :: rest). intros Y.
    simpl app. destruct Y as [|y Y']; [done|].
    destruct (N.eqb_spec c' 92); [lia | reflexivity].
  - left. intros rest. rewrite scan_hex4_high, <- app_assoc by done.
    simpl app. cbv iota. change (92 =? 92) with true.
    destruct (N.eqb_spec e 117); [lia | reflexivity].
  - destruct (is_low_surrogate c') eqn:Hlow.
    + right. exists c', s', (join_surrogates c c'). split; [done|].
      intros rest. rewrite scan_hex4_high, <- app_assoc by done.
      unfold hex4. simpl app. cbv iota. change (92 =? 92) with true.
      change (117 =? 117) with true. cbn [andb].
      by rewrite hex4_value_hex4, Hlow.
    + left. intros rest. rewrite scan_hex4_high, <- app_assoc by done.
      unfold hex4. simpl app. cbv iota. change (92 =? 92) with true.
      change (117 =? 117) with true. cbn [andb].
      by rewrite hex4_value_hex4, Hlow.
  - left. intros rest. rewrite scan_hex4_high, <- app_assoc by done.
    pose proof (N.mod_lt ((c' - 65536) / 1024) 1024 ltac:(done)) as Hh.
    unfold hex4. simpl app. cbv iota. change (92 =? 92) with true.
    change (117 =? 117) with true. cbn [andb].
    rewrite hex4_value_hex4 by lia.
    replace (is_low_surrogate _) with false; [done|].
    symmetry. unfold is_low_surrogate. apply andb_false_iff. left.
    apply N.leb_gt. lia.
Qed.

(** Whatever the string, what [encode_basestring_ascii] wrote for it is
    read back as one string literal, up to its closing quote. *)
Lemma scan_escaped_total s :
  ∃ v, ∀ rest,
    scanstring (concat (List.map escape_char s) ++ 34 :: rest) = Some (v, rest).
Proof.
  remember (length s) as n eqn:Hn. revert s Hn.
  induction n as [n IH] using lt_wf_ind. intros s ->.
  destruct s as [|c s]; [by exists []|].
  cbn [List.map concat].
  destruct (is_high_surrogate c) eqn:Hhigh.
  - destruct (scan_after_high c s Hhigh) as [Hscan | (c' & s' & u & -> & Hscan)].
    + destruct (IH (length s) ltac:(simpl; lia) s eq_refl) as [v Hv].
      exists (c :: v). intros rest. by rewrite <- app_assoc, Hscan, Hv.
    + destruct (IH (length s') ltac:(simpl; lia) s' eq_refl) as [v Hv].
      exists (u :: v). intros rest. by rewrite <- app_assoc, Hscan, Hv.
  - destruct (IH (length s) ltac:(simpl; lia) s eq_refl) as [v Hv].
    eexists (_ :: v). intros rest.
    by rewrite <- app_assoc, scan_escape_char, Hv.
Qed.

(** *** One line *)

Lemma json_dumps_chunk_shape text :
  json_dumps_chunk text
  = [123; 34; 99; 104; 117; 110; 107; 34; 58; 32; 34]
    ++ concat (List.map escape_char text) ++ [34; 125].
Proof.
  unfold json_dumps_chunk, encode_basestring_ascii.
  rewrite <- !app_assoc. reflexivity.
Qed.

Lemma loads_after_key X :
  loads_single_member ([123; 34; 99; 104; 117; 110; 107; 34; 58; 32; 34] ++ X)
  = match scanstring X with
    | Some (value, s6) =>
        match expect 125 s6 with
        | Some s7 =>
            match skip_ws s7 with
            | [] => Some (py "chunk", value)
            | _ :: _ => None
            end
        | None => None
        end
    | None => None
    end.
Proof. reflexivity. Qed.

Lemma json_dumps_chunk_no_newline text : 10 ∉ json_dumps_chunk text.
Proof.
  rewrite json_dumps_chunk_shape, !not_elem_of_app. split_and!.
  - rewrite !not_elem_of_cons. split_and!; try lia. apply not_elem_of_nil.
  - apply escaped_no_newline.
  - rewrite !not_elem_of_cons. split_and!; try lia. apply not_elem_of_nil.
Qed.

(** A line is read back as the one-member object with key [chunk], with
    or without its newline; the value is the text itself when the text
    has no surrogate code points. *)
Lemma chunk_line_reads_back text :
  ∃ value,
    loads_single_member (json_dumps_chunk text) = Some (py "chunk", value)
    ∧ loads_single_member (chunk_line text) = Some (py "chunk", value)
    ∧ chunk_of_line (chunk_line text) = Some value
    ∧ (Forall (λ c, is_scalar c = true) text → value = text).
Proof.
  destruct (scan_escaped_total text) as [value Hvalue]. exists value.
  assert (loads_single_member (chunk_line text) = Some (py "chunk", value)) as Hline.
  { unfold chunk_line. rewrite json_dumps_chunk_shape, <- !app_assoc.
    rewrite loads_after_key. simpl app. by rewrite Hvalue. }
  split_and!.
  - rewrite json_dumps_chunk_shape, loads_after_key. simpl app. by rewrite Hvalue.
  - done.
  - unfold chunk_of_line. rewrite Hline. reflexivity.
  - intros Hscalar. pose proof (scan_escaped_scalar text [] Hscalar) as Hs.
    rewrite Hvalue in Hs. by injection Hs.
Qed.

(** Why the texts are required to be free of surrogates: a high and a
    low surrogate that stand next to each other in a text are written as
    two escapes and read back as one character. *)
Example adjacent_surrogates_are_joined :
  chunk_of_line (chunk_line [55357; 56832]) = Some [128512].
Proof. reflexivity. Qed.

Example chunk_line_of_text :
  chunk_line (py "a cat")
  = [123; 34; 99; 104; 117; 110; 107; 34; 58; 32; 34;
     97; 32; 99; 97; 116; 34; 125; 10].
Proof. reflexivity. Qed.

Example chunk_line_escapes_newline :
  chunk_line [10] = py "{" ++ [34] ++ py "chunk" ++ [34] ++ py ": "
                    ++ [34; 92; 110; 34] ++ py "}" ++ [10].
Proof. reflexivity. Qed.

Lemma chunks_of_chunk_lines (texts : list pystr) :
  Forall (Forall (λ c, is_scalar c = true)) texts →
  chunks_of_lines (chunk_line <$> texts) = Some texts.
Proof.
  unfold chunks_of_lines. induction 1 as [|t texts Ht _ IH]; [done|].
  destruct (chunk_line_reads_back t) as (v & _ & _ & Hv & Heq).
  cbn [fmap list_fmap mapM]. rewrite Hv, IH. simpl. by rewrite (Heq Ht).
Qed.

Section Framing.

Context (L : Libraries) (g : gmap string (object L)).

Lemma reachable_prefix gen s :
  rtc (step L g gen) new_stream s →
  ∃ k, yielded s = chunk_line <$> take k (produced L g gen).
Proof.
  intros [-> | [(e & He & ->) | (run & Hrun & Hst)]]%reachable_shape.
  - by exists 0%nat.
  - by exists 0%nat.
  - unfold produced. rewrite Hrun. by apply started_prefix.
Qed.

Lemma reachable_exhausted gen s :
  rtc (step L g gen) new_stream s → status s = Exhausted →
  yielded s = chunk_line <$> produced L g gen.
Proof.
  intros [-> | [(e & He & ->) | (run & Hrun & Hst)]]%reachable_shape Hex;
    try discriminate.
  unfold produced. rewrite Hrun.
  by rewrite (started_exhausted_inv run s Hst Hex).
Qed.

(** C2.  Every line the generator yields is the serialisation of one
    produced fragment followed by one newline: the part before the
    newline contains no newline, and it reads back, on its own or with
    the newline, as a JSON object with exactly one member, whose key is
    [chunk] and whose value is a string. *)
Theorem streamed_lines_are_single_member_objects gen s line :
  rtc (step L g gen) new_stream s →
  line ∈ yielded s →
  ∃ text value,
    text ∈ produced L g gen
    ∧ line = json_dumps_chunk text ++ [10]
    ∧ (10 ∉ json_dumps_chunk text)
    ∧ loads_single_member (json_dumps_chunk text) = Some (py "chunk", value)
    ∧ loads_single_member line = Some (py "chunk", value).
Proof.
  intros [k Hk]%reachable_prefix Hline. rewrite Hk in Hline.
  apply list_elem_of_fmap in Hline as (text & -> & Htext).
  apply elem_of_take in Htext as (i & Htext & _).
  destruct (chunk_line_reads_back text) as (value & Hobj & Hl & _ & _).
  exists text, value. split_and!; auto using json_dumps_chunk_no_newline.
  by eapply list_elem_of_lookup_2.
Qed.

(** The generation a generator starts, when the two names are bound. *)
Lemma the_generation_bound gen md tok :
  g !! "moondream" = Some (OModel md) →
  g !! "tokenizer" = Some (OTokenizer tok) →
  the_generation L gen g
  = (g, Ok (answer_question md (image_embeds gen) (question gen) tok)).
Proof.
  intros Hmd Htok. unfold_M.
  rewrite Htok. cbn. rewrite Hmd. cbn. by rewrite Htok.
Qed.

End Framing.

(** A witness of C2: the first line of the small model's stream. *)
Lemma streamed_lines_are_single_member_objects_witness :
  let L := Demo.lib Demo.plain_model in
  let g := Demo.namespace Demo.plain_model in
  let gen := Build_generator L (py "QUJD") (PStr (py "what is this?")) in
  ∃ text value,
    text ∈ produced L g gen
    ∧ chunk_line (py "A") = json_dumps_chunk text ++ [10]
    ∧ (10 ∉ json_dumps_chunk text)
    ∧ loads_single_member (json_dumps_chunk text) = Some (py "chunk", value)
    ∧ loads_single_member (chunk_line (py "A")) = Some (py "chunk", value).
Proof.
  intros L g gen.
  apply (streamed_lines_are_single_member_objects L g gen
           {| status := Exhausted; worker := Some Returned; text_queue := [];
              yielded := chunk_line <$> [py "A"; py " cat"; py "."] |}).
  - apply (complete_run L g gen
             {| pushed := [py "A"; py " cat"; py "."]; result := Ok (py "A cat.") |}
             (py "A cat.")); reflexivity.
  - apply list_elem_of_here.
Defined.

(** * Further properties *)

(** ** Splitting and joining *)

Lemma split_app_sep sep (p r : pystr) :
  sep ∉ p → split sep (p ++ sep :: r) = p :: split sep r.
Proof.
  induction p as [|c p IH]; simpl; intros Hp.
  - by rewrite N.eqb_refl.
  - apply not_elem_of_cons in Hp as [Hc Hp].
    destruct (N.eqb_spec c sep); [congruence|]. by rewrite IH.
Qed.

Lemma join_split sep s : join sep (split sep s) = s.
Proof.
  induction s as [|c s IH]; simpl; [done|].
  destruct (N.eqb_spec c sep) as [->|Hne].
  - pose proof (split_cons_nonempty sep s).
    simpl. destruct (split sep s); [done|]. simpl in *. by rewrite IH.
  - destruct (split sep s) as [|h t]; simpl in *; [by rewrite <- IH|].
    destruct t; simpl in *; by rewrite <- IH.
Qed.

Lemma split_fields_no_sep sep s : Forall (λ f, sep ∉ f) (split sep s).
Proof.
  induction s as [|c s IH]; simpl.
  - constructor; [apply not_elem_of_nil | constructor].
  - destruct (N.eqb_spec c sep) as [->|Hne].
    + constructor; [apply not_elem_of_nil | done].
    + destruct (split sep s) as [|h t].
      { constructor; [|constructor]. rewrite not_elem_of_cons.
        split; [congruence | apply not_elem_of_nil]. }
      inversion IH; subst. constructor; [|done].
      rewrite not_elem_of_cons. split; [congruence | done].
Qed.

Lemma split_length sep s :
  length (split sep s) = S (length (filter (λ c, c = sep) s)).
Proof.
  induction s as [|c s IH]; simpl; [done|].
  rewrite filter_cons. destruct (N.eqb_spec c sep) as [->|Hne].
  - rewrite decide_True by done. simpl. by rewrite IH.
  - rewrite decide_False by done.
    pose proof (split_cons_nonempty sep s).
    destruct (split sep s) as [|h t]; [done|]. simpl in *. done.
Qed.

(** X1.  [str.split] as the module body and [process_base64_image] use
    it loses nothing: joining the fields with the separator gives the
    string back, no field contains the separator, and there is one
    field more than there are separators. *)
Theorem split_is_lossless sep (s : pystr) :
  join sep (split sep s) = s
  ∧ Forall (λ f, sep ∉ f) (split sep s)
  ∧ length (split sep s) = S (length (filter (λ c, c = sep) s)).
Proof.
  split_and!.
  - apply join_split.
  - apply split_fields_no_sep.
  - apply split_length.
Qed.

(** ** More on the module body *)

Section Startup_more.

Context (L : Libraries) (os : OS).
Implicit Types (g : gmap string (object L)).

(** X2.  A PYTHONPATH with a single entry is fatal: when the variable
    is set and not empty but does not contain the separator of the
    platform (a semicolon on Windows, a colon elsewhere), the module
    body raises the [RuntimeError] that quotes the value. *)
Theorem single_entry_pythonpath_is_fatal g dd (v : pystr) :
  detect_device L = Ok dd →
  os_environ os !! py "PYTHONPATH" = Some v →
  v ≠ [] →
  path_separator os ∉ v →
  (module_body L os g).2 =
    Raise (RuntimeError
      (py "PYTHONPATH should contain both current directory and models directory. Got: "
       ++ v)).
Proof.
  intros Hdd Hv Hne Hsep. apply module_body_raises.
  rewrite startup_checks_outcome, Hdd, Hv. simpl.
  rewrite decide_False by done.
  assert (¬ (2 ≤ length (split (path_separator os) v))%nat) as Hlen
    by (by rewrite split_length_ge_2).
  rewrite decide_True by lia. done.
Qed.

(** X3.  A PYTHONPATH that is set to the empty string is treated like
    one that is not set: both raise the [RuntimeError] saying that the
    variable is not set. *)
Theorem empty_pythonpath_counts_as_unset g dd :
  detect_device L = Ok dd →
  os_environ os !! py "PYTHONPATH" = None
  ∨ os_environ os !! py "PYTHONPATH" = Some [] →
  (module_body L os g).2 =
    Raise (RuntimeError (py "PYTHONPATH environment variable not set")).
Proof.
  intros Hdd Hv. apply module_body_raises.
  rewrite startup_checks_outcome, Hdd. by destruct Hv as [-> | ->].
Qed.


Lemma print_paths_frame x i (l : list pystr) g :
  x ≠ "i"%string → x ≠ "path"%string →
  (print_paths L i l g).1 !! x = g !! x.
Proof.
  intros Hi Hp. revert i g. induction l as [|path l IH]; intros i g; [done|].
  simpl. unfold mbind, M_bind, store_name. rewrite IH.
  by rewrite !lookup_insert_ne.
Qed.

(** The checks bind eight names and no other. *)
Lemma startup_checks_frame x g :
  x ∉ ["device"; "dtype"; "pythonpath"; "path_sep"; "paths"; "i"; "path";
       "model_path"]%string →
  (startup_checks L os g).1 !! x = g !! x.
Proof.
  rewrite !not_elem_of_cons.
  intros (Hdev & Hdt & Hpp & Hsep & Hpaths & Hi & Hpath & Hmp & _).
  unfold startup_checks, list_getitem, mbind, M_bind, store_name, lift, raise,
    mret, M_ret.
  destruct (detect_device L) as [dd|e]; [|done]. cbn -[py split].
  destruct (decide (default [] (os_environ os !! py "PYTHONPATH") = [])).
  { cbn -[py split]. by rewrite !lookup_insert_ne. }
  cbn -[py split].
  destruct (decide (length _ < 2)%nat).
  { cbn -[py split]. by rewrite !lookup_insert_ne. }
  match goal with
  | |- context [print_paths L ?i ?l ?g0] =>
      pose proof (print_paths_ok L i l g0) as Hok;
      pose proof (print_paths_frame x i l g0 Hi Hpath) as Hframe;
      destruct (print_paths L i l g0) as [g1 r1]
  end.
  simpl in Hok, Hframe. subst r1. cbn -[py split].
  destruct (split _ _ !! 1%nat) as [entry|]; cbn -[py split].
  - destruct (os_path_exists os _); cbn -[py split];
      rewrite lookup_insert_ne, Hframe, !lookup_insert_ne by done; done.
  - rewrite Hframe. by rewrite !lookup_insert_ne.
Qed.

(** X5.  When the checks of the module body fail, nothing is loaded:
    the module body raises the same exception, and the names [tokenizer]
    and [moondream] are bound to what they were bound to before (to
    nothing, in a fresh module). *)
Theorem failed_checks_load_nothing g e :
  (startup_checks L os g).2 = Raise e →
  (module_body L os g).2 = Raise e
  ∧ (module_body L os g).1 !! "tokenizer" = g !! "tokenizer"
  ∧ (module_body L os g).1 !! "moondream" = g !! "moondream".
Proof.
  intros He. split; [by apply module_body_raises|].
  pose proof (startup_checks_frame "tokenizer" g) as Htok.
  pose proof (startup_checks_frame "moondream" g) as Hmd.
  unfold module_body, mbind, M_bind.
  destruct (startup_checks L os g) as [g1 [mp|e1]]; simpl in *; [done|].
  split; [apply Htok | apply Hmd]; rewrite !not_elem_of_cons;
    split_and!; done || apply not_elem_of_nil.
Qed.

(** X6.  When the module body completes, everything the handlers and
    the generator read from the module is in place: [tokenizer] and
    [moondream] are bound to what the two loaders returned, so that
    reading them succeeds and a generator started in this namespace
    runs [answer_question] of the loaded model. *)
Theorem module_body_makes_handlers_ready g g' :
  module_body L os g = (g', Ok tt) →
  ∃ tok md model_path dt dv,
    AutoTokenizer_from_pretrained L = Ok tok
    ∧ Moondream_from_pretrained L model_path dt dv = Ok md
    ∧ load_tokenizer L g' = (g', Ok tok)
    ∧ load_model L g' = (g', Ok md)
    ∧ ∀ gen, the_generation L gen g'
             = (g', Ok (answer_question md (image_embeds gen) (question gen) tok)).
Proof.
  intros (tok & md & mp & dt & dv & Htok & Hmd & Hgtok & Hgmd)%module_body_binds.
  exists tok, md, mp, dt, dv. split_and!; try done.
  - unfold_M. by rewrite Hgtok.
  - unfold_M. by rewrite Hgmd.
  - intros gen. by apply the_generation_bound.
Qed.

End Startup_more.

(** ** More on the route handlers *)

Section Handlers_more.

Context (L : Libraries).
Implicit Types (g : gmap string (object L)) (r : route) (request : Request).

(** X7.  What the handlers do with a body of the wrong shape, on every
    route: the exception of [request.json()] escapes as it is; a body
    that is not a JSON object raises [TypeError]; an object without
    [image_url] raises the [KeyError] of that key, whatever else it
    holds; an [image_url] that is not a string raises
    [AttributeError]. *)
Theorem body_shape_errors r request g :
  (∀ e, request_json request = Raise e → handler L r request g = (g, Raise e))
  ∧ (∀ data, request_json request = Ok data → (∀ d, data ≠ PDict d) →
       handler L r request g = (g, Raise TypeError))
  ∧ (∀ d, request_json request = Ok (PDict d) → d !! py "image_url" = None →
       handler L r request g = (g, Raise (KeyError (py "image_url"))))
  ∧ (∀ d v, request_json request = Ok (PDict d) → d !! py "image_url" = Some v →
       (∀ s, v ≠ PStr s) →
       handler L r request g = (g, Raise AttributeError)).
Proof.
  split_and!.
  - intros e He. destruct r; unfold_M; by rewrite He.
  - intros data Hdata Hshape.
    assert (getitem data (py "image_url") = Raise TypeError) as Hget
      by (destruct data; try done; by destruct (Hshape d)).
    destruct r; unfold_M; by rewrite Hdata, Hget.
  - intros d Hdata Hurl. destruct r; unfold_M; rewrite Hdata; simpl;
      by rewrite Hurl.
  - intros d v Hdata Hurl Hv.
    pose proof (process_base64_image_not_str L v Hv) as Himage.
    destruct r; unfold_M; rewrite Hdata; simpl; by rewrite Hurl, Himage.
Qed.

(** X8.  A handler looks at [image_url] and, on the two query routes,
    at [question]; every other member of the body is ignored, and the
    caption routes ignore [question] too: two bodies that agree on the
    members a route reads get the same outcome. *)
Theorem handlers_ignore_other_members r g (d d' : gmap pystr pyval) :
  d !! py "image_url" = d' !! py "image_url" →
  r = Caption ∨ r = CaptionStream ∨ d !! py "question" = d' !! py "question" →
  handler L r {| request_json := Ok (PDict d) |} g
  = handler L r {| request_json := Ok (PDict d') |} g.
Proof.
  intros Hurl Hq.
  destruct r; unfold_M; simpl; rewrite Hurl; try reflexivity.
  - destruct Hq as [|[|Hq]]; [done..|]. by rewrite Hq.
  - destruct Hq as [|[|Hq]]; [done..|]. by rewrite Hq.
Qed.

(** X9.  A streaming route stops where the plain route goes on to run
    the generation: whatever exception the streaming route raises, the
    plain route raises for the same request; and whenever the plain
    route answers, the streaming route answers too, with a streaming
    response of newline-delimited JSON. *)
Theorem streaming_route_is_a_prefix_of_plain_route r_plain r_stream request g :
  (r_plain = Query ∧ r_stream = QueryStream)
  ∨ (r_plain = Caption ∧ r_stream = CaptionStream) →
  (∀ e, (handler L r_stream request g).2 = Raise e →
        (handler L r_plain request g).2 = Raise e)
  ∧ (∀ resp, (handler L r_plain request g).2 = Ok resp →
       ∃ gen, (handler L r_stream request g).2
              = Ok (StreamingResponse gen (py "application/x-ndjson"))).
Proof.
  intros [[-> ->] | [-> ->]]; split.
  - intros e. by run_M.
  - intros resp. run_M; intros [= <-]; simplify_eq. by eexists.
  - intros e. by run_M.
  - intros resp. run_M; intros [= <-]; simplify_eq. by eexists.
Qed.

(** X10.  A generation that raises makes the plain route fail, with
    status 500, and leaves the streaming route unaffected: for the same
    request the streaming route has already answered with status 200
    when the generation starts. *)
Theorem generation_failure_reaches_plain_route_only
    request g data url image md tok emb q e :
  request_json request = Ok data →
  getitem data (py "image_url") = Ok url →
  process_base64_image L url = Ok image →
  getitem data (py "question") = Ok q →
  g !! "moondream" = Some (OModel md) →
  g !! "tokenizer" = Some (OTokenizer tok) →
  encode_image md image = Ok emb →
  result (answer_question md emb q tok) = Raise e →
  query L request g = (g, Raise e)
  ∧ http_status L (query L request g).2 = 500
  ∧ query_stream L request g
    = (g, Ok (StreamingResponse {| image_embeds := emb; question := q |}
                (py "application/x-ndjson")))
  ∧ http_status L (query_stream L request g).2 = 200.
Proof.
  intros Hdata Hurl Himage Hq Hmd Htok Hemb He.
  assert (query L request g = (g, Raise e)) as ->.
  { unfold_M. rewrite Hdata, Hurl, Himage, Hq, Hmd. cbn.
    rewrite Hemb, Hmd. cbn. rewrite Htok. cbn. by rewrite He. }
  assert (query_stream L request g
          = (g, Ok (StreamingResponse {| image_embeds := emb; question := q |}
                      (py "application/x-ndjson")))) as ->.
  { unfold_M. rewrite Hdata, Hurl, Himage, Hq, Hmd. cbn. by rewrite Hemb. }
  done.
Qed.

(** X11.  For a data URL whose payload holds no comma the whole payload
    is decoded, whatever stands before the comma (the media type is not
    looked at); an empty payload is handed to the decoder as the empty
    string. *)
Theorem data_url_payload_is_decoded (header payload : pystr) :
  44 ∉ header → 44 ∉ payload →
  process_base64_image L (PStr (header ++ 44 :: payload))
  = res_bind (b64decode L payload) (Image_open L).
Proof.
  intros Hheader Hpayload. unfold process_base64_image.
  by rewrite base64_data_of_str, after_first_app, up_to_all.
Qed.

End Handlers_more.

(** ** More on the streamed lines *)

Lemma hex_digit_printable d : d < 16 → printable_ascii (hex_digit d).
Proof.
  intros Hd. unfold printable_ascii, hex_digit.
  destruct (N.ltb_spec d 10); lia.
Qed.

Lemma hex4_printable n : Forall printable_ascii (hex4 n).
Proof.
  unfold hex4. rewrite !land_15.
  repeat (constructor; [apply hex_digit_printable; by apply N.mod_lt|]).
  constructor.
Qed.

Lemma simple_escape_printable e x : simple_escape e = Some x → printable_ascii e.
Proof.
  unfold simple_escape, printable_ascii. intros He.
  repeat match type of He with
         | context [e =? ?k] => destruct (N.eqb_spec e k); [lia|]
         end.
  done.
Qed.

Lemma escape_char_printable c : Forall printable_ascii (escape_char c).
Proof.
  destruct (escape_char_cases c)
    as [(-> & [? ?] & _) | [(e & -> & _ & He) | [(_ & ->) | (_ & ->)]]].
  - constructor; [done | constructor].
  - apply simple_escape_printable in He.
    constructor; [unfold printable_ascii; lia|].
    constructor; [done | constructor].
  - do 2 (constructor; [unfold printable_ascii; lia|]). apply hex4_printable.
  - do 2 (constructor; [unfold printable_ascii; lia|]).
    apply Forall_app. split; [apply hex4_printable|].
    do 2 (constructor; [unfold printable_ascii; lia|]). apply hex4_printable.
Qed.

(** X12.  Whatever the text of a fragment, its line is made of printable
    ASCII characters and the final newline: control characters, the
    newline included, and all characters outside ASCII are written as
    escapes. *)
Theorem streamed_line_is_ascii (text : pystr) :
  chunk_line text = json_dumps_chunk text ++ [10]
  ∧ Forall printable_ascii (json_dumps_chunk text).
Proof.
  split; [done|].
  rewrite json_dumps_chunk_shape, !Forall_app. split_and!.
  - repeat (constructor; [unfold printable_ascii; lia|]). constructor.
  - induction text as [|c text IH]; simpl; [constructor|].
    apply Forall_app. split; [apply escape_char_printable | done].
  - repeat (constructor; [unfold printable_ascii; lia|]). constructor.
Qed.

(** X13.  The text of a fragment is recovered from its line, provided
    the text is made of Unicode scalar values (no surrogate code
    points); hence two such texts with the same line are the same
    text. *)
Theorem chunk_line_round_trip (text text' : pystr) :
  Forall (λ c, is_scalar c = true) text →
  chunk_of_line (chunk_line text) = Some text
  ∧ (Forall (λ c, is_scalar c = true) text' →
     chunk_line text = chunk_line text' → text = text').
Proof.
  intros Htext.
  assert (∀ t, Forall (λ c, is_scalar c = true) t →
               chunk_of_line (chunk_line t) = Some t) as Hback.
  { intros t Ht. destruct (chunk_line_reads_back t) as (v & _ & _ & Hv & Heq).
    by rewrite Hv, (Heq Ht). }
  split; [by apply Hback|].
  intros Htext' Hlines.
  pose proof (Hback text Htext) as H1. pose proof (Hback text' Htext') as H2.
  rewrite Hlines in H1. congruence.
Qed.

Lemma split_lines (objs : list pystr) :
  Forall (λ o, 10 ∉ o) objs →
  split 10 (concat ((λ o, o ++ [10]) <$> objs)) = objs ++ [[]].
Proof.
  induction 1 as [|o objs Ho _ IH]; [done|].
  cbn [fmap list_fmap concat]. rewrite <- app_assoc. simpl app.
  by rewrite split_app_sep, IH.
Qed.

Section Bridge_more.

Context (L : Libraries) (g : gmap string (object L)) (gen : generator L).

(** X14.  The body of a streaming response can be cut back into its
    lines: at any moment, splitting everything yielded so far at the
    newlines gives the JSON texts of the fragments delivered, in order,
    and an empty rest after the last newline. *)
Theorem stream_body_splits_into_lines s :
  rtc (step L g gen) new_stream s →
  ∃ k, split 10 (concat (yielded s))
       = (json_dumps_chunk <$> take k (produced L g gen)) ++ [[]].
Proof.
  intros [k Hk]%reachable_prefix. exists k. rewrite Hk.
  rewrite <- split_lines.
  - f_equal. f_equal. by rewrite <- list_fmap_compose.
  - apply Forall_fmap, Forall_forall. intros t _. simpl.
    apply json_dumps_chunk_no_newline.
Qed.

Lemma step_yielded_grows s s' :
  step L g gen s s' →
  (∃ more, yielded s' = yielded s ++ more)
  ∧ (status s = Exhausted → status s' = Exhausted ∧ yielded s' = yielded s)
  ∧ (∀ e, status s = Failed e → status s' = Failed e ∧ yielded s' = yielded s).
Proof.
  destruct 1; simpl; split_and!; try done;
    try (by exists []; rewrite app_nil_r); by eexists.
Qed.

(** X15.  What has been yielded stays: along any run the lines yielded
    earlier remain the beginning of the lines yielded later, and once
    the generator has returned (or has raised on starting) it yields
    nothing more, whatever the worker thread still does. *)
Theorem yielded_lines_are_final s s' :
  rtc (step L g gen) s s' →
  (∃ more, yielded s' = yielded s ++ more)
  ∧ (status s = Exhausted → status s' = Exhausted ∧ yielded s' = yielded s)
  ∧ (∀ e, status s = Failed e → status s' = Failed e ∧ yielded s' = yielded s).
Proof.
  induction 1 as [s|s1 s2 s3 Hstep _ IH].
  - split_and!; try done. exists []. by rewrite app_nil_r.
  - destruct (step_yielded_grows s1 s2 Hstep) as ([m1 Hm1] & Hex1 & Hf1).
    destruct IH as ([m2 Hm2] & Hex2 & Hf2). split_and!.
    + exists (m1 ++ m2). by rewrite Hm2, Hm1, app_assoc.
    + intros Hs. destruct (Hex1 Hs) as [Hs2 Hy2].
      destruct (Hex2 Hs2) as [Hs3 Hy3]. split; congruence.
    + intros e Hs. destruct (Hf1 e Hs) as [Hs2 Hy2].
      destruct (Hf2 e Hs2) as [Hs3 Hy3]. split; congruence.
Qed.

Lemma queued_texts_Text (ts : list pystr) : queued_texts (Text <$> ts) = ts.
Proof.
  induction ts as [|t ts IH]; [done|].
  unfold queued_texts in *. cbn. by f_equal.
Qed.

Lemma queued_texts_stop (ts : list pystr) :
  queued_texts ((Text <$> ts) ++ [StopSignal]) = ts.
Proof.
  pose proof (queued_texts_Text ts) as Hts. unfold queued_texts in *.
  rewrite omap_app, Hts. simpl. apply app_nil_r.
Qed.

(** X16.  No fragment is lost or made up between the worker and the
    consumer: once the generator has started, the fragments delivered,
    those waiting in the queue and those the worker has still to put
    make up, in this order, exactly what the generation produces.  The
    stop signal is in the queue only after the worker returned, and then
    as the last item. *)
Theorem fragments_are_conserved run s :
  (the_generation L gen g).2 = Ok run →
  rtc (step L g gen) new_stream s →
  status s ≠ Created →
  (∃ delivered,
     yielded s = chunk_line <$> delivered
     ∧ delivered ++ queued_texts (text_queue s) ++ not_yet_pushed (worker s)
       = pushed run)
  ∧ (StopSignal ∈ text_queue s →
     worker s = Some Returned
     ∧ ∃ ts, text_queue s = (Text <$> ts) ++ [StopSignal]).
Proof.
  intros Hrun [-> | [(e & He & ->) | (run' & Hrun' & Hst)]]%reachable_shape Hs;
    [done | congruence |].
  assert (run' = run) as -> by congruence.
  assert (∀ ts : list pystr, StopSignal ∉ fmap (M:=list) Text ts) as Hno.
  { intros ts [t [? _]]%list_elem_of_fmap. done. }
  destruct Hst as [delivered ts todo Hall | delivered ts a Ha Hall
                  | delivered ts e He Hall | a Ha]; simpl.
  - split; [|by intros ?%Hno]. exists delivered.
    by rewrite queued_texts_Text.
  - split; [|eauto]. exists delivered.
    by rewrite queued_texts_stop, app_nil_r.
  - split; [|by intros ?%Hno]. exists delivered.
    by rewrite queued_texts_Text, app_nil_r.
  - split; [|by intros ?%elem_of_nil]. exists (pushed run).
    by rewrite app_nil_r.
Qed.

End Bridge_more.


(** ** Closed instances *)

Ltac no_such_char :=
  let H := fresh in
  intros H; apply list_elem_of_In in H; vm_compute in H;
  repeat (destruct H as [H|H]; [discriminate H|]); exact H.

Lemma single_entry_pythonpath_is_fatal_witness :
  (module_body (Demo.lib Demo.plain_model) Samples.one_entry ∅).2 =
    Raise (RuntimeError
      (py "PYTHONPATH should contain both current directory and models directory. Got: "
       ++ py "/srv/models")).
Proof.
  apply (single_entry_pythonpath_is_fatal (Demo.lib Demo.plain_model)
           Samples.one_entry ∅ (tt, tt) (py "/srv/models")).
  - reflexivity.
  - reflexivity.
  - discriminate.
  - no_such_char.
Defined.

Lemma empty_pythonpath_counts_as_unset_witness :
  (module_body (Demo.lib Demo.plain_model) Samples.empty_path ∅).2 =
    Raise (RuntimeError (py "PYTHONPATH environment variable not set")).
Proof.
  apply (empty_pythonpath_counts_as_unset (Demo.lib Demo.plain_model)
           Samples.empty_path ∅ (tt, tt)).
  - reflexivity.
  - right. reflexivity.
Defined.


Lemma failed_checks_load_nothing_witness :
  let L := Demo.lib Demo.plain_model in
  let e := RuntimeError (py "PYTHONPATH environment variable not set") in
  (module_body L Demo.bare ∅).2 = Raise e
  ∧ (module_body L Demo.bare ∅).1 !! "tokenizer" = (∅ : gmap string (object L)) !! "tokenizer"
  ∧ (module_body L Demo.bare ∅).1 !! "moondream" = (∅ : gmap string (object L)) !! "moondream".
Proof.
  intros L e.
  apply (failed_checks_load_nothing L Demo.bare ∅ e). reflexivity.
Defined.

Lemma module_body_makes_handlers_ready_witness :
  let L := Demo.lib Demo.plain_model in
  let g := Demo.namespace Demo.plain_model in
  ∃ tok md model_path dt dv,
    AutoTokenizer_from_pretrained L = Ok tok
    ∧ Moondream_from_pretrained L model_path dt dv = Ok md
    ∧ load_tokenizer L g = (g, Ok tok)
    ∧ load_model L g = (g, Ok md)
    ∧ ∀ gen, the_generation L gen g
             = (g, Ok (answer_question md (image_embeds gen) (question gen) tok)).
Proof.
  intros L g.
  apply (module_body_makes_handlers_ready L Demo.posix ∅ g). reflexivity.
Defined.

Lemma body_shape_errors_witness :
  let L := Demo.lib Demo.plain_model in
  let g := Demo.namespace Demo.plain_model in
  handler L Query {| request_json := Raise (LibraryError "json.JSONDecodeError") |} g
    = (g, Raise (LibraryError "json.JSONDecodeError"))
  ∧ handler L Caption {| request_json := Ok (PList []) |} g = (g, Raise TypeError)
  ∧ handler L QueryStream (Demo.body [(py "question", PStr (py "what is this?"))]) g
    = (g, Raise (KeyError (py "image_url")))
  ∧ handler L CaptionStream (Demo.body [(py "image_url", PInt 7)]) g
    = (g, Raise AttributeError).
Proof.
  intros L g. split_and!.
  - apply (proj1 (body_shape_errors L Query _ g)). reflexivity.
  - apply (proj1 (proj2 (body_shape_errors L Caption _ g)) (PList []));
      [reflexivity | discriminate].
  - apply (proj1 (proj2 (proj2 (body_shape_errors L QueryStream _ g)))
             (list_to_map [(py "question", PStr (py "what is this?"))]));
      reflexivity.
  - apply (proj2 (proj2 (proj2 (body_shape_errors L CaptionStream _ g)))
             (list_to_map [(py "image_url", PInt 7)]) (PInt 7));
      [reflexivity | reflexivity | discriminate].
Defined.

Lemma handlers_ignore_other_members_witness :
  let L := Demo.lib Demo.plain_model in
  let g := Demo.namespace Demo.plain_model in
  handler L Caption
    {| request_json := Ok (PDict (list_to_map
         [(py "image_url", Samples.image_url);
          (py "question", PStr (py "what is this?"));
          (py "temperature", PInt 1)])) |} g
  = handler L Caption
      {| request_json := Ok (PDict (list_to_map
           [(py "image_url", Samples.image_url)])) |} g.
Proof.
  intros L g.
  apply (handlers_ignore_other_members L Caption g).
  - reflexivity.
  - left. reflexivity.
Defined.

Lemma streaming_route_is_a_prefix_of_plain_route_witness :
  let L := Demo.lib Demo.plain_model in
  let g := Demo.namespace Demo.plain_model in
  let request := Demo.body [(py "image_url", Samples.image_url);
                            (py "question", PStr (py "what is this?"))] in
  (∀ e, (handler L QueryStream request g).2 = Raise e →
        (handler L Query request g).2 = Raise e)
  ∧ (∀ resp, (handler L Query request g).2 = Ok resp →
       ∃ gen, (handler L QueryStream request g).2
              = Ok (StreamingResponse gen (py "application/x-ndjson"))).
Proof.
  intros L g request.
  apply (streaming_route_is_a_prefix_of_plain_route L Query QueryStream request g).
  left. split; reflexivity.
Defined.

Lemma generation_failure_reaches_plain_route_only_witness :
  let L := Demo.lib Demo.failing_model in
  let g := Demo.namespace Demo.failing_model in
  let request := Demo.body [(py "image_url", Samples.image_url);
                            (py "question", PStr (py "what is this?"))] in
  let e := LibraryError "torch.OutOfMemoryError" in
  query L request g = (g, Raise e)
  ∧ http_status L (query L request g).2 = 500
  ∧ query_stream L request g
    = (g, Ok (StreamingResponse
                (Build_generator L (py "QUJD") (PStr (py "what is this?")))
                (py "application/x-ndjson")))
  ∧ http_status L (query_stream L request g).2 = 200.
Proof.
  intros L g request e.
  apply (generation_failure_reaches_plain_route_only L request g
           (PDict (list_to_map [(py "image_url", Samples.image_url);
                                (py "question", PStr (py "what is this?"))]))
           Samples.image_url (py "QUJD") Demo.failing_model tt (py "QUJD")
           (PStr (py "what is this?")) e); reflexivity.
Defined.

Lemma data_url_payload_is_decoded_witness :
  process_base64_image (Demo.lib Demo.plain_model)
    (PStr (py "data:image/png;base64" ++ 44 :: py "QUJD"))
  = res_bind (b64decode (Demo.lib Demo.plain_model) (py "QUJD"))
             (Image_open (Demo.lib Demo.plain_model)).
Proof.
  apply (data_url_payload_is_decoded (Demo.lib Demo.plain_model)
           (py "data:image/png;base64") (py "QUJD")); no_such_char.
Defined.

Lemma chunk_line_round_trip_witness :
  chunk_of_line (chunk_line (py "A cat")) = Some (py "A cat")
  ∧ (Forall (λ c, is_scalar c = true) (py "A dog") →
     chunk_line (py "A cat") = chunk_line (py "A dog") → py "A cat" = py "A dog").
Proof.
  apply (chunk_line_round_trip (py "A cat") (py "A dog")).
  change (py "A cat") with [65; 32; 99; 97; 116]. repeat constructor.
Defined.

Lemma stream_body_splits_into_lines_witness :
  let L := Demo.lib Demo.plain_model in
  let g := Demo.namespace Demo.plain_model in
  let gen := Build_generator L (py "QUJD") (PStr (py "what is this?")) in
  let s := {| status := Exhausted; worker := Some Returned; text_queue := [];
              yielded := chunk_line <$> [py "A"; py " cat"; py "."] |} in
  ∃ k, split 10 (concat (yielded s))
       = (json_dumps_chunk <$> take k (produced L g gen)) ++ [[]].
Proof.
  intros L g gen s.
  apply (stream_body_splits_into_lines L g gen s).
  apply (complete_run L g gen
           {| pushed := [py "A"; py " cat"; py "."]; result := Ok (py "A cat.") |}
           (py "A cat.")); reflexivity.
Defined.

Lemma yielded_lines_are_final_witness :
  let L := Demo.lib Demo.plain_model in
  let g := Demo.namespace Demo.plain_model in
  let gen := Build_generator L (py "QUJD") (PStr (py "what is this?")) in
  let s' := {| status := Exhausted; worker := Some Returned; text_queue := [];
               yielded := chunk_line <$> [py "A"; py " cat"; py "."] |} in
  (∃ more, yielded s' = yielded new_stream ++ more)
  ∧ (status new_stream = Exhausted →
     status s' = Exhausted ∧ yielded s' = yielded new_stream)
  ∧ (∀ e, status new_stream = Failed e →
          status s' = Failed e ∧ yielded s' = yielded new_stream).
Proof.
  intros L g gen s'.
  apply (yielded_lines_are_final L g gen new_stream s').
  apply (complete_run L g gen
           {| pushed := [py "A"; py " cat"; py "."]; result := Ok (py "A cat.") |}
           (py "A cat.")); reflexivity.
Defined.

Lemma fragments_are_conserved_witness :
  let L := Demo.lib Demo.failing_model in
  let g := Demo.namespace Demo.failing_model in
  let gen := Build_generator L (py "QUJD") (PStr (py "what is this?")) in
  let e := LibraryError "torch.OutOfMemoryError" in
  let s := {| status := Looping; worker := Some (Died e); text_queue := [];
              yielded := chunk_line <$> [py "A"; py " cat"] |} in
  (∃ delivered,
     yielded s = chunk_line <$> delivered
     ∧ delivered ++ queued_texts (text_queue s) ++ not_yet_pushed (worker s)
       = [py "A"; py " cat"])
  ∧ (StopSignal ∈ text_queue s →
     worker s = Some Returned
     ∧ ∃ ts, text_queue s = (Text <$> ts) ++ [StopSignal]).
Proof.
  intros L g gen e s.
  apply (fragments_are_conserved L g gen
           {| pushed := [py "A"; py " cat"]; result := Raise e |} s).
  - reflexivity.
  - apply (failing_run L g gen
             {| pushed := [py "A"; py " cat"]; result := Raise e |} e); reflexivity.
  - discriminate.
Defined.


(** ** What the loaders are given *)

Section Loading.

Context (L : Libraries) (os : OS).
Implicit Types (g : gmap string (object L)).

(** What the checks leave in the namespace when they pass. *)
Lemma startup_checks_bindings g g1 model_path :
  startup_checks L os g = (g1, Ok model_path) →
  ∃ dd, detect_device L = Ok dd
        ∧ g1 !! "device" = Some (ODevice dd.1)
        ∧ g1 !! "dtype" = Some (ODtype dd.2)
        ∧ g1 !! "model_path" = Some (OVal (PStr model_path)).
Proof.
  unfold startup_checks, list_getitem, mbind, M_bind, store_name, lift, raise,
    mret, M_ret.
  destruct (detect_device L) as [dd|e]; [|done]. cbn -[py split].
  destruct (decide (default [] (os_environ os !! py "PYTHONPATH") = []));
    [done|]. cbn -[py split].
  destruct (decide (length _ < 2)%nat); [done|].
  match goal with
  | |- context [print_paths L ?i ?l ?g0] =>
      pose proof (print_paths_ok L i l g0) as Hok;
      pose proof (λ x, print_paths_frame L x i l g0) as Hframe;
      destruct (print_paths L i l g0) as [g2 r2]
  end.
  simpl in Hok, Hframe. subst r2. cbn -[py split].
  destruct (split _ _ !! 1%nat) as [entry|]; cbn -[py split]; [|done].
  destruct (os_path_exists os _); cbn -[py split]; [|done].
  intros [= <- <-]. exists dd. split_and!; [done|..].
  - rewrite lookup_insert_ne, Hframe, !lookup_insert_ne by done.
    by rewrite lookup_insert_eq.
  - rewrite lookup_insert_ne, Hframe, !lookup_insert_ne by done.
    by rewrite lookup_insert_eq.
  - by rewrite lookup_insert_eq.
Qed.


(** X18.  The model that ends up bound to [moondream] is the one loaded
    from the weight file whose existence was checked, with the dtype and
    on the device that [detect_device] returned; the path stays bound to
    [model_path]. *)
Theorem loaded_model_is_the_checked_one g g' :
  module_body L os g = (g', Ok tt) →
  ∃ dd model_path tok md,
    detect_device L = Ok dd
    ∧ (startup_checks L os g).2 = Ok model_path
    ∧ AutoTokenizer_from_pretrained L = Ok tok
    ∧ Moondream_from_pretrained L model_path dd.2 dd.1 = Ok md
    ∧ g' !! "tokenizer" = Some (OTokenizer tok)
    ∧ g' !! "moondream" = Some (OModel md)
    ∧ g' !! "model_path" = Some (OVal (PStr model_path)).
Proof.
  unfold module_body, load_weights, mbind, M_bind, store_name, load_name, lift,
    raise.
  destruct (startup_checks L os g) as [g1 [model_path|e]] eqn:Hchecks; [|done].
  destruct (startup_checks_bindings g g1 model_path Hchecks)
    as (dd & Hdd & Hdev & Hdt & Hmp).
  destruct (AutoTokenizer_from_pretrained L) as [tok|e]; [|done].
  rewrite lookup_insert_ne, Hdt by done. cbn.
  rewrite lookup_insert_ne, Hdev by done. cbn.
  destruct (Moondream_from_pretrained L model_path dd.2 dd.1) as [md|e] eqn:Hmd;
    [|done].
  intros [= <-]. exists dd, model_path, tok, md. split_and!; try done.
  - by rewrite lookup_insert_ne, lookup_insert_eq.
  - by rewrite lookup_insert_eq.
  - by rewrite !lookup_insert_ne.
Qed.


End Loading.

Lemma loaded_model_is_the_checked_one_witness :
  let L := Demo.lib Demo.plain_model in
  let g' := Demo.namespace Demo.plain_model in
  ∃ dd model_path tok md,
    detect_device L = Ok dd
    ∧ (startup_checks L Demo.posix ∅).2 = Ok model_path
    ∧ AutoTokenizer_from_pretrained L = Ok tok
    ∧ Moondream_from_pretrained L model_path dd.2 dd.1 = Ok md
    ∧ g' !! "tokenizer" = Some (OTokenizer tok)
    ∧ g' !! "moondream" = Some (OModel md)
    ∧ g' !! "model_path" = Some (OVal (PStr model_path)).
Proof.
  intros L g'.
  apply (loaded_model_is_the_checked_one L Demo.posix ∅ g'). reflexivity.
Defined.


(** ** Delivery and termination of a stream *)

Section Delivery.

Context (L : Libraries) (g : gmap string (object L)) (gen : generator L).

(** A started stream whose worker raises either has drained the queue
    of a dead worker, or can make a step. *)
Lemma started_progress_after_failure run e s :
  result run = Raise e → started run s →
  s = {| status := Looping; worker := Some (Died e);
         text_queue := []; yielded := chunk_line <$> pushed run |}
  ∨ ∃ s', step L g gen s s'.
Proof.
  intros He [delivered ts todo Hall | delivered ts a' Ha' Hall
            | delivered ts e' He' Hall | a' Ha']; simpl.
  - right. rewrite He. destruct todo as [|t todo]; eexists; constructor.
  - congruence.
  - assert (e' = e) as -> by congruence.
    destruct ts as [|t ts]; [|right; eexists; constructor].
    left. rewrite app_nil_r in Hall. by subst.
  - congruence.
Qed.

(** Whatever the interleaving so far, a stream whose worker raises ends
    up waiting on the empty queue of a dead worker. *)
Lemma started_ends_waiting run e s :
  result run = Raise e → started run s →
  rtc (step L g gen) s
    {| status := Looping; worker := Some (Died e);
       text_queue := []; yielded := chunk_line <$> pushed run |}.
Proof.
  intros He. remember (steps_left L g gen s) as n eqn:Hn.
  revert s Hn. induction n as [n IH] using lt_wf_ind. intros s -> Hs.
  destruct (started_progress_after_failure run e s He Hs) as [-> | [s' Hstep]].
  - apply rtc_refl.
  - eapply rtc_l; [exact Hstep|].
    eapply IH; [by apply step_decreases | done | by eapply started_step].
Qed.

(** C7 (as amended).  In every interleaving of the worker thread and
    the consumer, the lines yielded so far are the lines of a prefix of
    the fragments the generation produces, in the order it produces
    them, and the [chunk] fields read back from them are that prefix
    (for fragments of Unicode scalar values): nothing is reordered,
    repeated or left out.  The stream is finite: no run has more than
    [2 * n + 3] steps, [n] being the number of fragments.  When the
    worker returns, the only state in which nothing more can happen is
    the one where the generator has returned after yielding a line for
    every fragment, and that state is reached from every state of the
    run.  When the worker finishes by raising, the generator never
    returns: the state in which nothing more can happen, reached from
    every state of the run, is the one where every fragment produced
    before the failure has been yielded and the generator waits in its
    loop. *)
Theorem chunks_delivered_in_generation_order s :
  rtc (step L g gen) new_stream s →
  (∃ k, yielded s = chunk_line <$> take k (produced L g gen)
        ∧ (Forall (Forall (λ c, is_scalar c = true)) (produced L g gen) →
           chunks_of_lines (yielded s) = Some (take k (produced L g gen))))
  ∧ (status s = Exhausted →
     yielded s = chunk_line <$> produced L g gen
     ∧ (Forall (Forall (λ c, is_scalar c = true)) (produced L g gen) →
        chunks_of_lines (yielded s) = Some (produced L g gen)))
  ∧ (∀ n s', nsteps (step L g gen) n s s' →
             (n ≤ 2 * length (produced L g gen) + 3)%nat)
  ∧ (∀ run a,
       (the_generation L gen g).2 = Ok run → result run = Ok a →
       (stuck L g gen s → status s = Exhausted)
       ∧ rtc (step L g gen) s
           {| status := Exhausted; worker := Some Returned;
              text_queue := []; yielded := chunk_line <$> pushed run |})
  ∧ (∀ run e,
       (the_generation L gen g).2 = Ok run → result run = Raise e →
       status s ≠ Exhausted
       ∧ (stuck L g gen s →
          status s = Looping ∧ worker s = Some (Died e)
          ∧ yielded s = chunk_line <$> pushed run)
       ∧ rtc (step L g gen) s
           {| status := Looping; worker := Some (Died e);
              text_queue := []; yielded := chunk_line <$> pushed run |}).
Proof.
  intros Hs. split_and!.
  - destruct (reachable_prefix L g gen s Hs) as [k Hk]. exists k.
    split; [done|]. intros Hscalar. rewrite Hk.
    apply chunks_of_chunk_lines. by apply Forall_take.
  - intros Hex. pose proof (reachable_exhausted L g gen s Hs Hex) as Hy.
    split; [done|]. intros Hscalar. rewrite Hy.
    by apply chunks_of_chunk_lines.
  - intros n s' Hn. apply nsteps_bounded in Hn.
    pose proof (reachable_steps_left L g gen s Hs). lia.
  - intros run a Hrun Ha.
    destruct (reachable_shape L g gen s Hs)
      as [-> | [(e & He & ->) | (run' & Hrun' & Hst)]].
    + split; [|by eapply complete_run].
      intros Hstuck. exfalso. eapply Hstuck. by apply step_enter.
    + congruence.
    + assert (run' = run) as -> by congruence. split.
      * intros Hstuck.
        destruct (started_progress L g gen run a s Ha Hst) as [|[s' Hstep]];
          [done|]. by destruct (Hstuck s').
      * by eapply started_can_finish.
  - intros run e Hrun He.
    destruct (reachable_shape L g gen s Hs)
      as [-> | [(e' & He' & ->) | (run' & Hrun' & Hst)]].
    + split_and!; [done | | by eapply failing_run].
      intros Hstuck. exfalso. eapply Hstuck. by apply step_enter.
    + congruence.
    + assert (run' = run) as -> by congruence. split_and!.
      * by rewrite (started_not_exhausted_after_failure run e s He Hst).
      * intros Hstuck.
        destruct (started_stuck_after_failure L g gen run e s He Hst Hstuck)
          as (? & ? & ? & ?). done.
      * by eapply started_ends_waiting.
Qed.

(** X20.  No handler binds a module-level name, and neither does the
    start of a generator: whatever the request, and whether the handler
    returns or raises, the module namespace afterwards is the one
    before. *)
Theorem handlers_rebind_no_name r request :
  (handler L r request g).1 = g ∧ (the_generation L gen g).1 = g.
Proof.
  split.
  - destruct r; by run_M.
  - by run_M.
Qed.

End Delivery.

(** A witness of C7 (as amended): the run of the small model to its end. *)
Lemma chunks_delivered_in_generation_order_witness :
  let L := Demo.lib Demo.plain_model in
  let g := Demo.namespace Demo.plain_model in
  let gen := Build_generator L (py "QUJD") (PStr (py "what is this?")) in
  let s := {| status := Exhausted; worker := Some Returned; text_queue := [];
              yielded := chunk_line <$> [py "A"; py " cat"; py "."] |} in
  (∃ k, yielded s = chunk_line <$> take k (produced L g gen)
        ∧ (Forall (Forall (λ c, is_scalar c = true)) (produced L g gen) →
           chunks_of_lines (yielded s) = Some (take k (produced L g gen))))
  ∧ (status s = Exhausted →
     yielded s = chunk_line <$> produced L g gen
     ∧ (Forall (Forall (λ c, is_scalar c = true)) (produced L g gen) →
        chunks_of_lines (yielded s) = Some (produced L g gen)))
  ∧ (∀ n s', nsteps (step L g gen) n s s' →
             (n ≤ 2 * length (produced L g gen) + 3)%nat)
  ∧ (∀ run a,
       (the_generation L gen g).2 = Ok run → result run = Ok a →
       (stuck L g gen s → status s = Exhausted)
       ∧ rtc (step L g gen) s
           {| status := Exhausted; worker := Some Returned;
              text_queue := []; yielded := chunk_line <$> pushed run |})
  ∧ (∀ run e,
       (the_generation L gen g).2 = Ok run → result run = Raise e →
       status s ≠ Exhausted
       ∧ (stuck L g gen s →
          status s = Looping ∧ worker s = Some (Died e)
          ∧ yielded s = chunk_line <$> pushed run)
       ∧ rtc (step L g gen) s
           {| status := Looping; worker := Some (Died e);
              text_queue := []; yielded := chunk_line <$> pushed run |}).
Proof.
  intros L g gen s.
  apply (chunks_delivered_in_generation_order L g gen s).
  apply (complete_run L g gen
           {| pushed := [py "A"; py " cat"; py "."]; result := Ok (py "A cat.") |}
           (py "A cat.")); reflexivity.
Defined.

(** C7 (as stated) fails for a worker that finishes by raising: the
    worker thread is dead, nothing more can happen, and the generator
    has not returned; no state of the stream is one in which it has. *)
Lemma stream_of_a_failed_worker_does_not_terminate :
  let L := Demo.lib Demo.failing_model in
  let g := Demo.namespace Demo.failing_model in
  let gen := Build_generator L (py "QUJD") (PStr (py "what is this?")) in
  let e := LibraryError "torch.OutOfMemoryError" in
  let s := {| status := Looping; worker := Some (Died e); text_queue := [];
              yielded := chunk_line <$> [py "A"; py " cat"] |} in
  rtc (step L g gen) new_stream s
  ∧ worker s = Some (Died e)
  ∧ stuck L g gen s
  ∧ status s ≠ Exhausted
  ∧ ∀ s', rtc (step L g gen) new_stream s' → status s' ≠ Exhausted.
Proof.
  intros L g gen e s.
  pose (run := {| pushed := [py "A"; py " cat"]; result := Raise e |}).
  assert ((the_generation L gen g).2 = Ok run) as Hrun by reflexivity.
  split_and!.
  - by apply (failing_run L g gen run e).
  - reflexivity.
  - intros s' Hstep. inversion Hstep.
  - discriminate.
  - intros s' [-> | [(e' & He' & ->) | (run' & Hrun' & Hst)]]%reachable_shape.
    + discriminate.
    + congruence.
    + assert (run' = run) as -> by congruence.
      by rewrite (started_not_exhausted_after_failure run e s').
Qed.
